(** * continuousprint: the print-queue driver and its work accounting

    A shallow embedding of [continuousprint/storage/database.py] (the
    counters of [Job] and [Set]) and of [continuousprint/driver.py] (the
    [Driver] state machine), followed by the properties of both. *)

From Stdlib Require Import ZArith QArith Qround String Ascii List Bool Lia.
From stdpp Require Import base list strings pretty.
Import ListNotations.

Local Open Scope string_scope.
Local Open Scope Z_scope.
Local Open Scope list_scope.

(** ** storage/database.py *)

(** [str.split(",")]: the fields between the commas, empty fields kept, so
    that [n] commas give [n + 1] fields. [cur] holds the characters of the
    field being read, last one first. *)
Fixpoint split_on (sep : ascii) (cur : string) (s : string) : list string :=
  match s with
  | EmptyString => [String.rev cur]
  | String c rest =>
      if Ascii.eqb c sep
      then String.rev cur :: split_on sep EmptyString rest
      else split_on sep (String c cur) rest
  end.

Definition split_comma (s : string) : list string := split_on "," EmptyString s.

(** [class Set(Model)]. The columns the counters and the driver read; [rank]
    (a float used for ordering only) and the foreign key [job] are left to
    the owner: a [Set] lives in the [sets] of its [Job]. *)
Module Set_.
Record t : Type := Build {
  path : string;
  sd : bool;
  count : Z;
  remaining : Z;
  material_keys : string
}.

Definition with_remaining (r : Z) (self : t) : t :=
  {| path := path self; sd := sd self; count := count self;
     remaining := r; material_keys := material_keys self |}.

(** [Set.materials]: the CSV column read back as a list of keys. *)
Definition materials (self : t) : list string :=
  if String.eqb (material_keys self) "" then []
  else split_comma (material_keys self).

(** The storage constraints [remaining >= 0] and [remaining <= count]. *)
Definition bounded (self : t) : bool :=
  (0 <=? remaining self) && (remaining self <=? count self).
End Set_.

(** [class Job(Model)], with the back-reference [sets] as the list of the
    rows that point to it.

    A value of this type is read in one of two ways, and the methods below
    are those of the source in both. It is the stored job with the stored
    rows of its sets: this is what the calls that save ([save=True]) read
    and write. Or it is a job that holds its sets itself, in a list of
    objects (as [Job.from_dict] builds it): this is what a call that does
    not save reads and writes on such a job. A job loaded from the database
    and not saved is neither, and is the matter of [Loaded] below. *)
Module Job.
Record t : Type := Build {
  name : string;
  draft : bool;
  count : Z;
  remaining : Z;
  sets : list Set_.t
}.

Definition with_remaining (r : Z) (self : t) : t :=
  {| name := name self; draft := draft self; count := count self;
     remaining := r; sets := sets self |}.

Definition with_sets (ss : list Set_.t) (self : t) : t :=
  {| name := name self; draft := draft self; count := count self;
     remaining := remaining self; sets := ss |}.

(** [for s in self.sets: if s.remaining > 0: return True]. *)
Definition has_incomplete_sets (self : t) : bool :=
  existsb (fun s => 0 <? Set_.remaining s) (sets self).

Definition has_work (self : t) : bool :=
  has_incomplete_sets self || (0 <? remaining self).

(** [Set.update(remaining=Set.count).where(Set.job == self)] when saving:
    every stored row of the job gets its counter at its count. The loop
    [for s in self.sets: s.remaining = s.count] of the other branch
    ([reset_each]) does the same to the objects of a list that the job
    holds; on a job loaded from the database it writes to objects that a
    fresh query made and nobody keeps (see [Loaded.decrement]). *)
Definition update_remaining_to_count (ss : list Set_.t) : list Set_.t :=
  (fun s => Set_.with_remaining (Set_.count s) s) <$> ss.

Fixpoint reset_each (ss : list Set_.t) : list Set_.t :=
  match ss with
  | [] => []
  | s :: rest => Set_.with_remaining (Set_.count s) s :: reset_each rest
  end.

(** [Job.decrement]: the result and the job as the call leaves it: the
    stored rows for [save = true], the job holding its sets in a list for
    [save = false]. *)
Definition decrement (save : bool) (self : t) : bool * t :=
  let self := with_remaining (Z.max (remaining self - 1) 0) self in
  let self :=
    if 0 <? remaining self
    then if save
         then with_sets (update_remaining_to_count (sets self)) self
         else with_sets (reset_each (sets self)) self
    else self in
  (has_work self, self).

(** [Job.normalize]. *)
Definition normalize (self : t) : bool * t :=
  if remaining self =? 0 then (has_incomplete_sets self, self)
  else if has_incomplete_sets self then (true, self)
  else decrement true self.

Definition bounded (self : t) : bool :=
  (0 <=? remaining self) && (remaining self <=? count self)
  && forallb Set_.bounded (sets self).
End Job.

(** [Set.decrement], for the [Set] at position [i] of [job.sets], with the
    job as the call leaves it. For [save = true] the job is the stored one:
    [self.save()] writes the row of [self] before [has_incomplete_sets]
    reads the rows, and the reset done by [Job.decrement] reaches that row.
    For [save = false] it is a job holding its sets in a list of which
    [self] is a member, with [self.job] set to that job, so that the write
    to [self.remaining] is seen through the list. A set loaded from the
    database and not saved is the matter of [LoadedSet] below. *)
Definition Set_decrement (save : bool) (job : Job.t) (i : nat) : Job.t :=
  let job :=
    Job.with_sets
      (alter (fun self => Set_.with_remaining (Z.max 0 (Set_.remaining self - 1)) self)
             i (Job.sets job)) job in
  if negb (Job.has_incomplete_sets job)
  then snd (Job.decrement save job)
  else job.

(** *** Objects loaded from the database

    [Set.job] is declared with [backref="sets"]: on a job loaded from the
    database [self.sets] is a query, run afresh at every use. It yields the
    rows as they are stored, in objects of its own, not the objects the
    caller holds; what is written to an object is seen through it only
    once saved (at [Set.decrement] the source says: "Save must occur before
    job is observed"). *)

(** A job object loaded from the database: its attribute [remaining] (its
    other attributes are those of its row) and the stored rows of the job
    and of its sets. *)
Module Loaded.
Record t : Type := Build {
  remaining : Z;
  rows : Job.t
}.

(** The object as the database hands it out. *)
Definition load (rows : Job.t) : t :=
  {| remaining := Job.remaining rows; rows := rows |}.

(** [has_incomplete_sets] iterates [self.sets]: the stored rows. *)
Definition has_incomplete_sets (self : t) : bool :=
  Job.has_incomplete_sets (rows self).

Definition has_work (self : t) : bool :=
  has_incomplete_sets self || (0 <? remaining self).

(** [Job.decrement]. [self.save()] writes the attribute to the job's row;
    when saving, the reset is the [UPDATE] of the rows of the sets; when
    not, the loop writes to the objects of a query and leaves the rows and
    the job object as they are. *)
Definition decrement (save : bool) (self : t) : bool * t :=
  let r := Z.max (remaining self - 1) 0 in
  let stored := if save then Job.with_remaining r (rows self) else rows self in
  let stored :=
    if 0 <? r
    then if save
         then Job.with_sets (Job.update_remaining_to_count (Job.sets stored))
                            stored
         else stored
    else stored in
  let self := {| remaining := r; rows := stored |} in
  (has_work self, self).
End Loaded.

(** A set object loaded from the database: its attribute [remaining], the
    position [row] of its row among the rows of its job, and [self.job]. *)
Module LoadedSet.
Record t : Type := Build {
  remaining : Z;
  row : nat;
  job : Loaded.t
}.

(** The object of the set [s] stored at position [i] of the job [rows],
    as the database hands it out. *)
Definition load (rows : Job.t) (i : nat) (s : Set_.t) : t :=
  {| remaining := Set_.remaining s; row := i; job := Loaded.load rows |}.

(** [Set.decrement]. [self.save()] writes the attribute to the row of
    [self]; without it [self.job.has_incomplete_sets()] reads the row as it
    was. *)
Definition decrement (save : bool) (self : t) : t :=
  let r := Z.max 0 (remaining self - 1) in
  let stored := Loaded.rows (job self) in
  let stored :=
    if save
    then Job.with_sets
           (alter (Set_.with_remaining r) (row self) (Job.sets stored)) stored
    else stored in
  let owner :=
    {| Loaded.remaining := Loaded.remaining (job self);
       Loaded.rows := stored |} in
  if negb (Loaded.has_incomplete_sets owner)
  then {| remaining := r; row := row self;
          job := snd (Loaded.decrement save owner) |}
  else {| remaining := r; row := row self; job := owner |}.
End LoadedSet.

(** [class Run(Model)]: [start] and [end] as the timestamps (seconds, a
    float read as the rational it denotes) that [timestamp()] gives. *)
Module Run.
Record t : Type := Build {
  queueName : string;
  jobName : string;
  path : string;
  start : Q;
  end_ : option Q;
  result : option string
}.
End Run.

(** ** driver.py *)

Inductive Action : Type :=
  ACTIVATE | DEACTIVATE | SUCCESS | FAILURE | SPAGHETTI | TICK.

Inductive Printer : Type := IDLE | PAUSED | BUSY.

Definition Action_eqb (a b : Action) : bool :=
  match a, b with
  | ACTIVATE, ACTIVATE | DEACTIVATE, DEACTIVATE | SUCCESS, SUCCESS
  | FAILURE, FAILURE | SPAGHETTI, SPAGHETTI | TICK, TICK => true
  | _, _ => false
  end.

Definition Printer_eqb (p q : Printer) : bool :=
  match p, q with
  | IDLE, IDLE | PAUSED, PAUSED | BUSY, BUSY => true
  | _, _ => false
  end.

Definition Qltb (x y : Q) : bool := negb (Qle_bool y x).

(** [round(x)] on a float: to the nearest integer, ties to the even one. *)
Definition py_round (x : Q) : Z :=
  let f := Qfloor x in
  match (x - inject_Z f ?= 1 # 2)%Q with
  | Lt => f
  | Gt => f + 1
  | Eq => if Z.even f then f else f + 1
  end.

Definition timeAgo (elapsed : Q) : string :=
  if Qltb elapsed (inject_Z (60 * 60))
  then pretty (py_round (elapsed / inject_Z 60)) +:+ " minutes"
  else if Qltb elapsed (inject_Z (60 * 60 * 24))
  then pretty (py_round (elapsed / inject_Z (60 * 60))) +:+ " hours"
  else pretty (py_round (elapsed / inject_Z (60 * 60 * 24))) +:+ " days".

(** What [self.state] holds: one tag for each method [_state_*]. *)
Inductive State : Type :=
  | Unknown | Inactive | StartPrint | Printing | Paused | SpaghettiRecovery
  | Failure | Success | StartClearing | Clearing | StartFinishing | Finishing.

(** The attributes of a [Driver] ([q], [_runner] and [_logger] are the
    collaborators below). *)
Record Driver : Type := {
  status : option string;
  state : State;
  retries : Z;
  retry_on_pause : bool;
  max_retries : Z;
  retry_threshold_seconds : Q;
  first_print : bool;
  _update_ui : bool;
  _cur_path : option string;
  _cur_materials : list (option string)
}.

Definition set_status_field (v : option string) (d : Driver) : Driver :=
  {| status := v; state := state d; retries := retries d;
     retry_on_pause := retry_on_pause d; max_retries := max_retries d;
     retry_threshold_seconds := retry_threshold_seconds d;
     first_print := first_print d; _update_ui := _update_ui d;
     _cur_path := _cur_path d; _cur_materials := _cur_materials d |}.

Definition set_state (v : State) (d : Driver) : Driver :=
  {| status := status d; state := v; retries := retries d;
     retry_on_pause := retry_on_pause d; max_retries := max_retries d;
     retry_threshold_seconds := retry_threshold_seconds d;
     first_print := first_print d; _update_ui := _update_ui d;
     _cur_path := _cur_path d; _cur_materials := _cur_materials d |}.

Definition set_retries (v : Z) (d : Driver) : Driver :=
  {| status := status d; state := state d; retries := v;
     retry_on_pause := retry_on_pause d; max_retries := max_retries d;
     retry_threshold_seconds := retry_threshold_seconds d;
     first_print := first_print d; _update_ui := _update_ui d;
     _cur_path := _cur_path d; _cur_materials := _cur_materials d |}.

Definition set_update_ui (v : bool) (d : Driver) : Driver :=
  {| status := status d; state := state d; retries := retries d;
     retry_on_pause := retry_on_pause d; max_retries := max_retries d;
     retry_threshold_seconds := retry_threshold_seconds d;
     first_print := first_print d; _update_ui := v;
     _cur_path := _cur_path d; _cur_materials := _cur_materials d |}.

Definition set_cur_path (v : option string) (d : Driver) : Driver :=
  {| status := status d; state := state d; retries := retries d;
     retry_on_pause := retry_on_pause d; max_retries := max_retries d;
     retry_threshold_seconds := retry_threshold_seconds d;
     first_print := first_print d; _update_ui := _update_ui d;
     _cur_path := v; _cur_materials := _cur_materials d |}.

Definition set_cur_materials (v : list (option string)) (d : Driver) : Driver :=
  {| status := status d; state := state d; retries := retries d;
     retry_on_pause := retry_on_pause d; max_retries := max_retries d;
     retry_threshold_seconds := retry_threshold_seconds d;
     first_print := first_print d; _update_ui := _update_ui d;
     _cur_path := _cur_path d; _cur_materials := v |}.

(** [Driver.set_retry_on_pause] (its defaults are [3] and [60 * 60]). *)
Definition set_retry_on_pause (enabled : bool) (max_retries' : Z)
    (retry_threshold_seconds' : Q) (d : Driver) : Driver :=
  {| status := status d; state := state d; retries := retries d;
     retry_on_pause := enabled; max_retries := max_retries';
     retry_threshold_seconds := retry_threshold_seconds';
     first_print := first_print d; _update_ui := _update_ui d;
     _cur_path := _cur_path d; _cur_materials := _cur_materials d |}.

(** [Driver.__init__]: the status goes from [None] to ["Initializing"]
    through [_set_status], and the flag it raised is lowered again. *)
Definition Driver_init : Driver :=
  {| status := Some "Initializing"; state := Unknown; retries := 0;
     retry_on_pause := false; max_retries := 0;
     retry_threshold_seconds := 0%Q; first_print := true;
     _update_ui := false; _cur_path := None; _cur_materials := [] |}.

(** *** The collaborators

    The queue ([self.q]) and the script runner ([self._runner]) are objects
    handed to the constructor; the clock is [time.time]. The driver only
    calls their methods, so they are an interface over a state [W] of
    their own. Their methods are taken to return normally. *)
Class Collaborators (W : Type) : Type := {
  get_set_or_acquire : W -> option Set_.t * W;
  get_set : W -> option Set_.t * W;
  get_run : W -> option Run.t * W;
  begin_run : W -> W;
  end_run : string -> W -> W;
  start_print : Set_.t -> W -> bool * W;
  cancel_print : W -> W;
  clear_bed : W -> W;
  run_finish_script : W -> W;
  time_time : W -> Q * W
}.

(** The calls made on the collaborators, in the order they are made (what a
    mock records). *)
Inductive Call : Type :=
  | q_get_set_or_acquire | q_get_set | q_get_run | q_begin_run
  | q_end_run (result : string)
  | runner_start_print (item : Set_.t)
  | runner_cancel_print | runner_clear_bed | runner_run_finish_script
  | clock_time.

Definition is_runner_call (c : Call) : bool :=
  match c with
  | runner_start_print _ | runner_cancel_print | runner_clear_bed
  | runner_run_finish_script => true
  | _ => false
  end.

Inductive Exn : Type := AttributeError (attr : string).

Inductive Outcome (A : Type) : Type :=
  | Returned (a : A)
  | Raised (e : Exn).
Arguments Returned {A} a.
Arguments Raised {A} e.

(** The driver, the state of its collaborators and the calls so far. *)
Record Sys (W : Type) : Type := MkSys {
  driver : Driver;
  world : W;
  calls : list Call
}.
Arguments MkSys {W} _ _ _.
Arguments driver {W} _.
Arguments world {W} _.
Arguments calls {W} _.

(** A method body: it reads and writes the system and returns or raises;
    what it wrote before raising stays written. *)
Definition M (W A : Type) : Type := Sys W -> Outcome A * Sys W.

Global Instance M_ret {W} : MRet (M W) := fun A a s => (Returned a, s).

Global Instance M_bind {W} : MBind (M W) := fun A B f m s =>
  match m s with
  | (Returned a, s') => f a s'
  | (Raised e, s') => (Raised e, s')
  end.

Definition raise {W A} (e : Exn) : M W A := fun s => (Raised e, s).

Definition read {W A} (f : Driver -> A) : M W A :=
  fun s => (Returned (f (driver s)), s).

Definition write {W} (f : Driver -> Driver) : M W unit :=
  fun s => (Returned tt, MkSys (f (driver s)) (world s) (calls s)).

(** A call that returns a value, and one that returns nothing. *)
Definition ask {W A} (c : Call) (f : W -> A * W) : M W A :=
  fun s => let (r, w) := f (world s) in
           (Returned r, MkSys (driver s) w (calls s ++ [c])).

Definition tell {W} (c : Call) (f : W -> W) : M W unit :=
  fun s => (Returned tt, MkSys (driver s) (f (world s)) (calls s ++ [c])).

Definition str_or_None (v : option string) : string :=
  match v with
  | Some s => s
  | None => "None"
  end.

(** The loop over [enumerate(item.materials())] from index [i] on: the
    first entry that is not [None] and differs from [cur], with its index and
    [cur], where [cur] is [_cur_materials[i]] when [i] is in range and [None]
    otherwise. *)
Fixpoint first_mismatch (i : nat) (materials cur_materials : list (option string))
    : option (nat * string * option string) :=
  match materials with
  | [] => None
  | None :: rest => first_mismatch (S i) rest cur_materials
  | Some im :: rest =>
      let cur := match cur_materials !! i with
                 | Some c => c
                 | None => None
                 end in
      if bool_decide (Some im = cur)
      then first_mismatch (S i) rest cur_materials
      else Some (i, im, cur)
  end.

Section Driver.
Context {W : Type} `{!Collaborators W}.

Definition _set_status (s : string) : M W unit :=
  cur ← read status;
  if bool_decide (Some s = cur) then mret tt
  else write (set_update_ui true);; write (set_status_field (Some s)).

Definition _state_unknown (a : Action) (p : Printer) : M W (option State) :=
  if Action_eqb a DEACTIVATE then mret (Some Inactive) else mret None.

Definition _state_start_print (a : Action) (p : Printer) : M W (option State) :=
  if Action_eqb a DEACTIVATE then mret (Some Inactive)
  else if negb (Printer_eqb p IDLE)
  then _set_status "Waiting for printer to be ready";; mret None
  else
    item ← ask q_get_set_or_acquire get_set_or_acquire;
    match item with
    | None =>
        _set_status "No work to do; going inactive";; mret (Some Inactive)
    | Some item =>
        cur_materials ← read _cur_materials;
        match first_mismatch 0 (Some <$> Set_.materials item) cur_materials with
        | Some (i, im, cur) =>
            _set_status ("Waiting for spool " +:+ im +:+ " in tool "
                         +:+ pretty i +:+ " (currently: "
                         +:+ str_or_None cur +:+ ")");;
            mret None
        | None =>
            tell q_begin_run begin_run;;
            started ← ask (runner_start_print item) (start_print item);
            if started : bool then mret (Some Printing) else mret None
        end
    end.

Definition _enter_start_print (a : Action) (p : Printer) : M W (option State) :=
  nxt ← _state_start_print a p;
  match nxt with
  | Some n => mret (Some n)
  | None => mret (Some StartPrint)
  end.

Definition _state_inactive (a : Action) (p : Printer) : M W (option State) :=
  write (set_retries 0);;
  if Action_eqb a ACTIVATE
  then if negb (Printer_eqb p IDLE)
       then mret (Some Printing)
       else _enter_start_print a p
  else
    (if Printer_eqb p IDLE
     then _set_status "Inactive (click Start Managing)"
     else _set_status "Inactive (active print continues unmanaged)");;
    mret None.

Definition _state_printing (a : Action) (p : Printer) : M W (option State) :=
  if Action_eqb a DEACTIVATE then mret (Some Inactive)
  else if Action_eqb a FAILURE then mret (Some Failure)
  else if Action_eqb a SPAGHETTI then
    run ← ask q_get_run get_run;
    now ← ask clock_time time_time;
    match run with
    | None => raise (AttributeError "start")
    | Some run =>
        let elapsed := (now - Run.start run)%Q in
        enabled ← read retry_on_pause;
        threshold ← read retry_threshold_seconds;
        if (enabled : bool) && Qltb elapsed threshold
        then mret (Some SpaghettiRecovery)
        else
          _set_status ("Paused after " +:+ timeAgo elapsed +:+ " (>"
                       +:+ timeAgo threshold +:+ "); awaiting user");;
          mret (Some Paused)
    end
  else if Action_eqb a SUCCESS then
    item ← ask q_get_set get_set;
    match item with
    | None => raise (AttributeError "path")
    | Some item =>
        cur_path ← read _cur_path;
        if bool_decide (Some (Set_.path item) = cur_path)
        then mret (Some Success)
        else mret (Some StartClearing)
    end
  else if Printer_eqb p BUSY then
    item ← ask q_get_set get_set;
    match item with
    | Some _ => _set_status "Printing";; mret None
    | None => mret None
    end
  else if Printer_eqb p PAUSED then mret (Some Paused)
  else if Printer_eqb p IDLE then mret (Some Success)
  else mret None.

Definition _state_paused (a : Action) (p : Printer) : M W (option State) :=
  _set_status "Queue paused";;
  if Action_eqb a DEACTIVATE || Printer_eqb p IDLE then mret (Some Inactive)
  else if Printer_eqb p BUSY then mret (Some Printing)
  else mret None.

Definition _state_spaghetti_recovery (a : Action) (p : Printer)
    : M W (option State) :=
  _set_status "Cancelling print (spaghetti seen early in print)";;
  if Printer_eqb p PAUSED
  then tell runner_cancel_print cancel_print;; mret (Some Failure)
  else mret None.

Definition _state_failure (a : Action) (p : Printer) : M W (option State) :=
  if negb (Printer_eqb p IDLE) then mret None
  else
    r ← read retries;
    m ← read max_retries;
    if r + 1 <? m
    then write (set_retries (r + 1));; mret (Some StartClearing)
    else tell (q_end_run "failure") (end_run "failure");; mret (Some Inactive).

Definition _state_success (a : Action) (p : Printer) : M W (option State) :=
  tell (q_end_run "success") (end_run "success");;
  write (set_retries 0);;
  item ← ask q_get_set_or_acquire get_set_or_acquire;
  match item with
  | Some _ => mret (Some StartClearing)
  | None => mret (Some StartFinishing)
  end.

Definition _state_start_clearing (a : Action) (p : Printer)
    : M W (option State) :=
  if Action_eqb a DEACTIVATE then mret (Some Inactive)
  else if negb (Printer_eqb p IDLE)
  then _set_status "Waiting for printer to be ready";; mret None
  else tell runner_clear_bed clear_bed;; mret (Some Clearing).

Definition _state_clearing (a : Action) (p : Printer) : M W (option State) :=
  if Action_eqb a DEACTIVATE then mret (Some Inactive)
  else if Action_eqb a SUCCESS then _enter_start_print a p
  else if Action_eqb a FAILURE
  then _set_status "Error occurred clearing bed - aborting";;
       mret (Some Inactive)
  else if Printer_eqb p IDLE then _enter_start_print a p
  else _set_status "Clearing bed";; mret None.

Definition _state_start_finishing (a : Action) (p : Printer)
    : M W (option State) :=
  if Action_eqb a DEACTIVATE then mret (Some Inactive)
  else if negb (Printer_eqb p IDLE)
  then _set_status "Waiting for printer to be ready";; mret None
  else tell runner_run_finish_script run_finish_script;;
       mret (Some Finishing).

Definition _state_finishing (a : Action) (p : Printer) : M W (option State) :=
  if existsb (Action_eqb a) [DEACTIVATE; SUCCESS; FAILURE]
  then mret (Some Inactive)
  else if Printer_eqb p IDLE then mret (Some Inactive)
  else _set_status "Finishing up";; mret None.

(** [self.state(a, p)]. *)
Definition call_state (st : State) : Action -> Printer -> M W (option State) :=
  match st with
  | Unknown => _state_unknown
  | Inactive => _state_inactive
  | StartPrint => _state_start_print
  | Printing => _state_printing
  | Paused => _state_paused
  | SpaghettiRecovery => _state_spaghetti_recovery
  | Failure => _state_failure
  | Success => _state_success
  | StartClearing => _state_start_clearing
  | Clearing => _state_clearing
  | StartFinishing => _state_start_finishing
  | Finishing => _state_finishing
  end.

(** [Driver.action] (the log lines are left out). *)
Definition action (a : Action) (p : Printer) (path : option string)
    (materials : list (option string)) : M W bool :=
  match path with
  | Some _ => write (set_cur_path path)
  | None => mret tt
  end;;
  (if (0 <? length materials)%nat
   then write (set_cur_materials materials)
   else mret tt);;
  st ← read state;
  nxt ← call_state st a p;
  match nxt with
  | Some n => write (set_state n);; write (set_update_ui true)
  | None => mret tt
  end;;
  ui ← read _update_ui;
  if ui : bool then write (set_update_ui false);; mret true else mret false.

(** [Driver.current_path]. *)
Definition current_path : M W (option string) :=
  item ← ask q_get_set get_set;
  mret (Set_.path <$> item).
End Driver.

(** Calls of [action] one after the other, as the poller makes them; a call
    that raises ends the sequence. *)
Definition Input : Type := Action * Printer * option string * list (option string).

Fixpoint actions {W} `{!Collaborators W} (inputs : list Input) (s : Sys W)
    : Outcome (list bool) * Sys W :=
  match inputs with
  | [] => (Returned [], s)
  | (a, p, path, materials) :: rest =>
      match action a p path materials s with
      | (Returned b, s') =>
          match actions rest s' with
          | (Returned bs, s'') => (Returned (b :: bs), s'')
          | (Raised e, s'') => (Raised e, s'')
          end
      | (Raised e, s') => (Raised e, s')
      end
  end.

(** The runner calls among [cs]. *)
Definition runner_calls (cs : list Call) : list Call :=
  List.filter is_runner_call cs.

(** ** A scripted queue and runner

    A stand-in for the collaborators in the manner of a unit-test mock, to
    run the driver on concrete inputs: the queue always offers [next_set],
    [begin_run] opens a run at the current clock reading, [end_run] closes
    it, and [start_print] answers [start_ok]. *)
Module Scripted.
Record t : Type := Build {
  next_set : option Set_.t;
  open_run : option Run.t;
  clock : Q;
  start_ok : bool
}.

Definition with_open_run (r : option Run.t) (w : t) : t :=
  {| next_set := next_set w; open_run := r; clock := clock w;
     start_ok := start_ok w |}.

Definition new_run (w : t) : Run.t :=
  {| Run.queueName := "local"; Run.jobName := "";
     Run.path := match next_set w with Some s => Set_.path s | None => "" end;
     Run.start := clock w; Run.end_ := None; Run.result := None |}.

Global Instance collaborators : Collaborators t := {|
  get_set_or_acquire w := (next_set w, w);
  get_set w := (next_set w, w);
  get_run w := (open_run w, w);
  begin_run w := with_open_run (Some (new_run w)) w;
  end_run _ w := with_open_run None w;
  start_print _ w := (start_ok w, w);
  cancel_print w := w;
  clear_bed w := w;
  run_finish_script w := w;
  time_time w := (clock w, w)
|}.

(** A driver just constructed, over the scripted collaborators. *)
Definition fresh (w : t) : Sys t := MkSys Driver_init w [].
End Scripted.

(** The state the driver is in after each call of a sequence. *)
Fixpoint states_after {W} `{!Collaborators W} (inputs : list Input) (s : Sys W)
    : list State :=
  match inputs with
  | [] => []
  | (a, p, path, materials) :: rest =>
      match action a p path materials s with
      | (Returned _, s') => state (driver s') :: states_after rest s'
      | (Raised _, s') => [state (driver s')]
      end
  end.

(** [m] only adds to the record of calls, and adds at most [n] calls on the
    script runner. *)
Definition runner_budget {W A} (n : nat) (m : M W A) : Prop :=
  forall s : Sys W, exists cs : list Call,
    calls (snd (m s)) = calls s ++ cs /\ (length (runner_calls cs) <= n)%nat.

(** ** Concrete inputs *)

(** A set that asks for one spool, and one that leaves tool 0 open and asks
    for a spool in tool 1. *)
Definition set_red : Set_.t :=
  {| Set_.path := "red.gcode"; Set_.sd := false; Set_.count := 1;
     Set_.remaining := 1; Set_.material_keys := "PLA-Red" |}.

Definition set_tool1_red : Set_.t :=
  {| Set_.path := "dual.gcode"; Set_.sd := false; Set_.count := 1;
     Set_.remaining := 1; Set_.material_keys := ",PLA-Red" |}.

(** A set with no material requirement. *)
Definition set_plain : Set_.t :=
  {| Set_.path := "plain.gcode"; Set_.sd := false; Set_.count := 1;
     Set_.remaining := 1; Set_.material_keys := "" |}.

(** A job with two passes left whose only set is used up, and one in the
    middle of a pass. *)
Definition job_pass_done : Job.t :=
  {| Job.name := "brackets"; Job.draft := false; Job.count := 2;
     Job.remaining := 2;
     Job.sets := [ {| Set_.path := "a.gcode"; Set_.sd := false;
                      Set_.count := 2; Set_.remaining := 0;
                      Set_.material_keys := "" |} ] |}.

Definition job_mid_pass : Job.t :=
  {| Job.name := "hinges"; Job.draft := false; Job.count := 2;
     Job.remaining := 2;
     Job.sets := [ {| Set_.path := "a.gcode"; Set_.sd := false;
                      Set_.count := 2; Set_.remaining := 1;
                      Set_.material_keys := "" |};
                   {| Set_.path := "b.gcode"; Set_.sd := false;
                      Set_.count := 1; Set_.remaining := 0;
                      Set_.material_keys := "" |} ] |}.

(** The scripted queue offering [item] at clock reading [now]. *)
Definition offering (item : Set_.t) (now : Q) : Scripted.t :=
  {| Scripted.next_set := Some item; Scripted.open_run := None;
     Scripted.clock := now; Scripted.start_ok := true |}.

(** The scripted queue with a run of [set_red] open since [started]. *)
Definition printing_since (started now : Q) : Scripted.t :=
  {| Scripted.next_set := Some set_red;
     Scripted.open_run :=
       Some {| Run.queueName := "local"; Run.jobName := "brackets";
               Run.path := "red.gcode"; Run.start := started;
               Run.end_ := None; Run.result := None |};
     Scripted.clock := now; Scripted.start_ok := true |}.

(** The scripted queue with nothing selected. *)
Definition nothing_selected (now : Q) : Scripted.t :=
  {| Scripted.next_set := None; Scripted.open_run := None;
     Scripted.clock := now; Scripted.start_ok := true |}.

(** A driver in state [st] with the retry settings given, over [w]. *)
Definition driver_in (st : State) (enabled : bool) (max_retries' : Z)
    (threshold : Q) (w : Scripted.t) : Sys Scripted.t :=
  MkSys (set_state st (set_retry_on_pause enabled max_retries' threshold Driver_init))
        w [].

(** ** Measures on strings and jobs *)

(** How many characters of [s] are [c]. *)
Fixpoint occurrences (c : ascii) (s : string) : nat :=
  match s with
  | EmptyString => 0%nat
  | String c' rest =>
      if Ascii.eqb c' c then S (occurrences c rest) else occurrences c rest
  end.

(** [",".join(mats)], as [migrateFromSettings] builds [material_keys]. *)
Definition join_comma (mats : list string) : string := String.concat "," mats.

Definition with_material_keys (keys : string) (self : Set_.t) : Set_.t :=
  {| Set_.path := Set_.path self; Set_.sd := Set_.sd self;
     Set_.count := Set_.count self; Set_.remaining := Set_.remaining self;
     Set_.material_keys := keys |}.

Definition Zsum {A : Type} (f : A -> Z) (l : list A) : Z :=
  foldr (fun x acc => f x + acc) 0 l.

(** The prints a job still stands for: what is left of the pass under way,
    and one full pass of its sets for each further pass. *)
Definition prints_left (j : Job.t) : Z :=
  Zsum Set_.remaining (Job.sets j)
  + Zsum Set_.count (Job.sets j) * Z.max (Job.remaining j - 1) 0.

(** [n] calls of [Job.decrement] in a row. *)
Definition decrement_times (save : bool) (n : nat) (j : Job.t) : Job.t :=
  Nat.iter n (fun k => snd (Job.decrement save k)) j.

(** ** The parts of [action] *)

(** The system once [action] has taken note of its arguments [path] and
    [materials]. *)
Definition noted {W : Type} (path : option string)
    (materials : list (option string)) (s : Sys W) : Sys W :=
  let d := match path with
           | Some _ => set_cur_path path (driver s)
           | None => driver s
           end in
  let d := if (0 <? length materials)%nat then set_cur_materials materials d
           else d in
  MkSys d (world s) (calls s).

(** The end of [action], once the state method has returned [nxt]. *)
Definition conclude {W : Type} (nxt : option State) (s : Sys W) : bool * Sys W :=
  let s1 := match nxt with
            | Some n =>
                MkSys (set_update_ui true (set_state n (driver s)))
                      (world s) (calls s)
            | None => s
            end in
  if _update_ui (driver s1)
  then (true, MkSys (set_update_ui false (driver s1)) (world s1) (calls s1))
  else (false, s1).

(** [m] takes the driver it finds to one related to it by [R]. *)
Definition keeps {W A : Type} (R : Driver -> Driver -> Prop) (m : M W A) : Prop :=
  forall s : Sys W, R (driver s) (driver (snd (m s))).

(** [m] returns, it does not raise. *)
Definition returns {W A : Type} (m : M W A) : Prop :=
  forall s : Sys W, exists a : A, fst (m s) = Returned a.

(** What a call of [action] may do to the attributes other than [state],
    [status], [retries] and the flag. *)
Definition same_settings (d d' : Driver) : Prop :=
  state d' = state d
  /\ retry_on_pause d' = retry_on_pause d
  /\ max_retries d' = max_retries d
  /\ retry_threshold_seconds d' = retry_threshold_seconds d
  /\ first_print d' = first_print d
  /\ _cur_path d' = _cur_path d
  /\ _cur_materials d' = _cur_materials d.

(** The status only changes with the flag raised, and the flag is not
    lowered. *)
Definition flagged (d d' : Driver) : Prop :=
  (status d' = status d \/ _update_ui d' = true)
  /\ (_update_ui d = true -> _update_ui d' = true).

(** The retry counter is in range. *)
Definition retries_in_range (d : Driver) : Prop :=
  retries d = 0 \/ 0 < retries d < max_retries d.

(** The event of an input. *)
Definition event_of (i : Input) : Action := fst (fst (fst i)).

(** The scripted queue offering [item] to a runner that does not start. *)
Definition refusing (item : Set_.t) (now : Q) : Scripted.t :=
  {| Scripted.next_set := Some item; Scripted.open_run := None;
     Scripted.clock := now; Scripted.start_ok := false |}.

(** * Properties *)

(** ** Work accounting *)

Section Accounting.
Implicit Types (j : Job.t) (s : Set_.t) (save : bool) (i : nat).

Lemma reset_each_fmap (ss : list Set_.t) :
  Job.reset_each ss = Job.update_remaining_to_count ss.
Proof.
  induction ss as [|s ss IH]; simpl; [reflexivity|].
  now rewrite IH.
Qed.

Lemma Set_bounded_spec s :
  Set_.bounded s = true <-> 0 <= Set_.remaining s <= Set_.count s.
Proof. unfold Set_.bounded. rewrite andb_true_iff, !Z.leb_le. tauto. Qed.

Lemma Job_bounded_spec j :
  Job.bounded j = true <->
  0 <= Job.remaining j <= Job.count j /\
  Forall (fun s => 0 <= Set_.remaining s <= Set_.count s) (Job.sets j).
Proof.
  unfold Job.bounded.
  rewrite !andb_true_iff, !Z.leb_le, forallb_forall, Forall_forall.
  split.
  - intros [Hr Hs]. split; [lia|].
    intros s Hin. apply Set_bounded_spec, Hs. now apply list_elem_of_In.
  - intros [Hr Hs]. split; [lia|].
    intros s Hin. apply Set_bounded_spec, Hs. now apply list_elem_of_In.
Qed.

(** The job that [Job.decrement] leaves, case by case. *)
Lemma Job_decrement_job save j :
  snd (Job.decrement save j) =
  let r := Z.max (Job.remaining j - 1) 0 in
  Job.with_remaining r
    (if 0 <? r
     then Job.with_sets (Job.update_remaining_to_count (Job.sets j)) j
     else j).
Proof.
  unfold Job.decrement. cbn [snd Job.remaining Job.with_remaining Job.sets].
  destruct (0 <? Z.max (Job.remaining j - 1) 0); [|reflexivity].
  destruct save; [reflexivity|].
  cbn [Job.sets]. now rewrite reset_each_fmap.
Qed.

Lemma with_remaining_same s : Set_.with_remaining (Set_.remaining s) s = s.
Proof. now destruct s. Qed.

Lemma Job_with_sets_same j : Job.with_sets (Job.sets j) j = j.
Proof. now destruct j. Qed.

Lemma alter_floor (ss : list Set_.t) i s :
  ss !! i = Some s -> Set_.remaining s = 0 ->
  alter (fun self => Set_.with_remaining (Z.max 0 (Set_.remaining self - 1)) self)
        i ss = ss.
Proof.
  intros Hi H0. apply list_eq. intros k.
  destruct (decide (i = k)) as [->|Hne].
  - rewrite list_lookup_alter_eq, Hi. simpl. f_equal.
    rewrite H0. change (Z.max 0 (0 - 1)) with 0.
    rewrite <- H0. apply with_remaining_same.
  - now rewrite list_lookup_alter_ne.
Qed.
End Accounting.

(** *** Objects loaded from the database *)

(** Saving, a loaded job leaves the rows that [Job.decrement true] gives,
    and its own attribute agrees with them. *)
Lemma Loaded_decrement_saved (rows : Job.t) :
  Loaded.decrement true (Loaded.load rows)
  = (fst (Job.decrement true rows), Loaded.load (snd (Job.decrement true rows))).
Proof.
  unfold Loaded.decrement, Loaded.load, Job.decrement, Loaded.has_work,
    Loaded.has_incomplete_sets, Job.has_work.
  cbn [Loaded.remaining Loaded.rows Job.remaining Job.with_remaining fst snd].
  destruct (0 <? Z.max (Job.remaining rows - 1) 0) eqn:Hr;
    cbn [Job.remaining Job.sets Job.with_remaining Job.with_sets];
    rewrite ?Hr; reflexivity.
Qed.

(** Not saving, a loaded job lowers its own attribute and nothing else: the
    rows stay as they are, those of the sets included. *)
Lemma Loaded_decrement_unsaved (self : Loaded.t) :
  Loaded.decrement false self
  = (Job.has_incomplete_sets (Loaded.rows self)
     || (0 <? Z.max (Loaded.remaining self - 1) 0),
     {| Loaded.remaining := Z.max (Loaded.remaining self - 1) 0;
        Loaded.rows := Loaded.rows self |}).
Proof.
  unfold Loaded.decrement, Loaded.has_work, Loaded.has_incomplete_sets.
  cbn [Loaded.remaining Loaded.rows].
  destruct (0 <? Z.max (Loaded.remaining self - 1) 0); reflexivity.
Qed.

Lemma alter_agree {A : Type} (f g : A -> A) (l : list A) (i : nat) (x : A) :
  l !! i = Some x -> f x = g x -> alter f i l = alter g i l.
Proof.
  intros Hi Hfg. apply list_eq. intros k.
  destruct (decide (i = k)) as [<-|Hne].
  - rewrite !list_lookup_alter_eq, Hi. cbn. now rewrite Hfg.
  - now rewrite !list_lookup_alter_ne.
Qed.

(** Saving, a loaded set leaves the rows that [Set_decrement true] gives. *)
Lemma LoadedSet_decrement_saved (rows : Job.t) (i : nat) (s : Set_.t) :
  Job.sets rows !! i = Some s ->
  LoadedSet.job (LoadedSet.decrement true (LoadedSet.load rows i s))
  = Loaded.load (Set_decrement true rows i)
  /\ LoadedSet.remaining (LoadedSet.decrement true (LoadedSet.load rows i s))
     = Z.max 0 (Set_.remaining s - 1).
Proof.
  intros Hi. unfold LoadedSet.decrement, LoadedSet.load, Set_decrement.
  cbn [LoadedSet.remaining LoadedSet.row LoadedSet.job Loaded.rows
       Loaded.remaining Loaded.load].
  rewrite (alter_agree (Set_.with_remaining (Z.max 0 (Set_.remaining s - 1)))
             (fun self => Set_.with_remaining
                            (Z.max 0 (Set_.remaining self - 1)) self)
             _ _ _ Hi eq_refl).
  set (stored := Job.with_sets _ rows).
  change {| Loaded.remaining := Job.remaining rows; Loaded.rows := stored |}
    with (Loaded.load stored).
  change (Loaded.has_incomplete_sets (Loaded.load stored))
    with (Job.has_incomplete_sets stored).
  destruct (Job.has_incomplete_sets stored); cbn [negb LoadedSet.job
    LoadedSet.remaining].
  - split; reflexivity.
  - rewrite Loaded_decrement_saved. split; reflexivity.
Qed.

(** Not saving, a loaded set lowers its own attribute; the rows stay as
    they are, and the job object loses a pass only if no stored row is
    incomplete. *)
Lemma LoadedSet_decrement_unsaved (self : LoadedSet.t) :
  let self' := LoadedSet.decrement false self in
  LoadedSet.remaining self' = Z.max 0 (LoadedSet.remaining self - 1)
  /\ Loaded.rows (LoadedSet.job self') = Loaded.rows (LoadedSet.job self)
  /\ Loaded.remaining (LoadedSet.job self')
     = if Job.has_incomplete_sets (Loaded.rows (LoadedSet.job self))
       then Loaded.remaining (LoadedSet.job self)
       else Z.max (Loaded.remaining (LoadedSet.job self) - 1) 0.
Proof.
  unfold LoadedSet.decrement. cbv zeta.
  unfold Loaded.has_incomplete_sets. cbn [Loaded.rows].
  destruct (Job.has_incomplete_sets (Loaded.rows (LoadedSet.job self)));
    cbn [negb LoadedSet.remaining LoadedSet.job Loaded.rows Loaded.remaining].
  - split; [|split]; reflexivity.
  - rewrite Loaded_decrement_unsaved.
    cbn [snd Loaded.rows Loaded.remaining]. split; [|split]; reflexivity.
Qed.



(** C7, as the code has it. When [0 <= remaining <= count] holds of a job
    and of each of its sets, it still does after [Job.decrement] and
    after [Set.decrement] of any of its sets, cascade included, and of the
    stored rows and the attributes of loaded objects whether the call
    saves or not. At the floor: [Job.decrement] of a job with
    [remaining = 0] changes nothing, and [Set.decrement] of a set with
    [remaining = 0] leaves that set as it was when a sibling is incomplete
    or the job has at most one pass left. When no set is incomplete and
    more than one pass is left, a call that saves cascades into a new pass
    and the stored set is put back to its [count]; a call that does not
    save, on a set of the database, leaves the set object at [0] and the
    rows as they were. *)
Theorem decrement_keeps_bounds (save : bool) (j : Job.t) (i : nat) :
  Job.bounded j = true ->
  Job.bounded (snd (Job.decrement save j)) = true
  /\ Job.bounded (Set_decrement save j i) = true
  /\ (Job.remaining j = 0 -> snd (Job.decrement save j) = j)
  /\ (forall s : Set_.t, Job.sets j !! i = Some s -> Set_.remaining s = 0 ->
      Job.has_incomplete_sets j = true \/ Job.remaining j <= 1 ->
      Job.sets (Set_decrement save j i) !! i = Some s)
  /\ (forall s : Set_.t, Job.sets j !! i = Some s -> Set_.remaining s = 0 ->
      Job.has_incomplete_sets j = false -> 1 < Job.remaining j ->
      Job.sets (Set_decrement true j i) !! i
        = Some (Set_.with_remaining (Set_.count s) s))
  /\ (forall s : Set_.t, Job.sets j !! i = Some s -> Set_.remaining s = 0 ->
      let self := LoadedSet.decrement false (LoadedSet.load j i s) in
      LoadedSet.remaining self = 0
      /\ Loaded.rows (LoadedSet.job self) = j)
  /\ (let self := snd (Loaded.decrement save (Loaded.load j)) in
      Job.bounded (Loaded.rows self) = true
      /\ 0 <= Loaded.remaining self <= Job.count j)
  /\ (forall s : Set_.t, Job.sets j !! i = Some s ->
      let self := LoadedSet.decrement save (LoadedSet.load j i s) in
      Job.bounded (Loaded.rows (LoadedSet.job self)) = true
      /\ 0 <= LoadedSet.remaining self <= Set_.count s).
Proof.
  intros Hb.
  assert (Hsets : forall s : Set_.t, Job.sets j !! i = Some s ->
                    0 <= Set_.remaining s <= Set_.count s).
  { intros s Hi. pose proof Hb as Hj. apply Job_bounded_spec in Hj as [_ Hs].
    exact (Forall_lookup_1 _ _ _ _ Hs Hi). }
  assert (Hjob : 0 <= Job.remaining j <= Job.count j)
    by (pose proof Hb as Hj; apply Job_bounded_spec in Hj as [Hr _]; exact Hr).
  assert (Hdec : forall k, Job.bounded k = true ->
                           Job.bounded (snd (Job.decrement save k)) = true).
  { intros k Hk. apply Job_bounded_spec in Hk as [Hr Hs].
    rewrite Job_decrement_job. cbv zeta. apply Job_bounded_spec.
    destruct (0 <? Z.max (Job.remaining k - 1) 0);
      cbn [Job.remaining Job.with_remaining Job.sets Job.with_sets Job.count].
    - split; [lia|]. unfold Job.update_remaining_to_count.
      apply Forall_fmap. eapply Forall_impl; [exact Hs|].
      intros s Hsb. unfold compose. cbv beta in Hsb.
      cbn [Set_.remaining Set_.count Set_.with_remaining]. lia.
    - split; [lia | exact Hs]. }
  assert (Hset : Job.bounded (Set_decrement save j i) = true).
  { unfold Set_decrement.
    match goal with |- context [negb (Job.has_incomplete_sets ?k)] =>
      assert (Hk : Job.bounded k = true) end.
    { apply Job_bounded_spec in Hb as [Hr Hs]. apply Job_bounded_spec.
      cbn [Job.remaining Job.with_sets Job.sets Job.count].
      split; [exact Hr|].
      apply Forall_alter; [exact Hs|].
      intros s _ Hsb. cbv beta in Hsb.
      cbn [Set_.remaining Set_.count Set_.with_remaining]. lia. }
    destruct (negb _); [now apply Hdec | exact Hk]. }
  split; [now apply Hdec|]. split; [exact Hset|].
  split; [|split; [|split; [|split; [|split]]]].
  - intros H0. rewrite Job_decrement_job. cbv zeta. rewrite H0.
    change (Z.max (0 - 1) 0) with 0. simpl. rewrite <- H0. now destruct j.
  - intros s Hi H0 Hcase. unfold Set_decrement.
    rewrite (alter_floor _ _ _ Hi H0), Job_with_sets_same.
    destruct (Job.has_incomplete_sets j) eqn:Hinc; cbn [negb]; [exact Hi|].
    destruct Hcase as [Hcase|Hcase]; [discriminate|].
    rewrite Job_decrement_job. cbv zeta.
    apply Job_bounded_spec in Hb as [Hr _].
    replace (Z.max (Job.remaining j - 1) 0) with 0 by lia.
    simpl. exact Hi.
  - intros s Hi H0 Hinc Hr. unfold Set_decrement.
    rewrite (alter_floor _ _ _ Hi H0), Job_with_sets_same, Hinc. cbn [negb].
    rewrite Job_decrement_job. cbv zeta.
    destruct (0 <? Z.max (Job.remaining j - 1) 0) eqn:Hpos.
    + cbn [Job.sets Job.with_remaining Job.with_sets].
      unfold Job.update_remaining_to_count.
      now rewrite list_lookup_fmap, Hi.
    + apply Z.ltb_ge in Hpos. lia.
  - intros s Hi H0. cbv zeta.
    pose proof (LoadedSet_decrement_unsaved (LoadedSet.load j i s)) as Hu.
    cbv zeta in Hu. destruct Hu as (Hr & Hrows & _).
    rewrite Hr, Hrows. cbn [LoadedSet.load LoadedSet.remaining LoadedSet.job
      Loaded.load Loaded.rows]. rewrite H0. split; reflexivity.
  - cbv zeta. destruct save.
    + rewrite Loaded_decrement_saved.
      cbn [snd Loaded.load Loaded.rows Loaded.remaining].
      specialize (Hdec j Hb). split; [exact Hdec|].
      rewrite Job_decrement_job. cbv zeta.
      destruct (0 <? Z.max (Job.remaining j - 1) 0);
        cbn [Job.remaining Job.with_remaining Job.with_sets]; lia.
    + rewrite Loaded_decrement_unsaved.
      cbn [snd Loaded.load Loaded.rows Loaded.remaining].
      split; [exact Hb | lia].
  - intros s Hi. cbv zeta. specialize (Hsets s Hi). destruct save.
    + destruct (LoadedSet_decrement_saved j i s Hi) as [Hj Hr].
      rewrite Hj, Hr. cbn [Loaded.load Loaded.rows].
      split; [exact Hset | lia].
    + pose proof (LoadedSet_decrement_unsaved (LoadedSet.load j i s)) as Hu.
      cbv zeta in Hu. destruct Hu as (Hr & Hrows & _).
      rewrite Hr, Hrows. cbn [LoadedSet.load LoadedSet.remaining LoadedSet.job
        Loaded.load Loaded.rows]. split; [exact Hb | lia].
Qed.

(** C7 as stated fails for [Set.decrement]: the only set of
    [job_pass_done] has [remaining = 0], all bounds hold, and decrementing
    that set with [save=True] leaves the stored set with [remaining = 2],
    because the cascade into [Job.decrement] starts the next pass. *)
Lemma Set_decrement_at_floor_not_idempotent :
  Job.bounded job_pass_done = true
  /\ Set_.remaining <$> Job.sets job_pass_done !! 0%nat = Some 0
  /\ Set_.remaining <$> Job.sets (Set_decrement true job_pass_done 0) !! 0%nat
     = Some 2.
Proof. repeat split; reflexivity. Qed.

Lemma decrement_keeps_bounds_witness :
  Job.bounded job_mid_pass = true
  /\ Job.bounded (snd (Job.decrement true job_mid_pass)) = true
  /\ Job.bounded (Set_decrement true job_mid_pass 0) = true
  /\ Set_.remaining <$> Job.sets (Set_decrement true job_mid_pass 1) !! 1%nat
     = Some 0.
Proof.
  split; [reflexivity|].
  pose proof (decrement_keeps_bounds true job_mid_pass 0 eq_refl) as H0.
  pose proof (decrement_keeps_bounds true job_mid_pass 1 eq_refl) as H1.
  split; [exact (proj1 H0)|]. split; [exact (proj1 (proj2 H0))|].
  destruct H1 as (_ & _ & _ & Hfloor & _).
  rewrite (Hfloor _ eq_refl eq_refl (or_introl eq_refl)). reflexivity.
Defined.

(** ** The driver *)

Section DriverFacts.
Context {W : Type} `{!Collaborators W}.

(** *** Calls on the script runner *)

Lemma budget_ret {A} n (a : A) : runner_budget (W:=W) n (mret a).
Proof. intros s. exists []. rewrite app_nil_r. split; [reflexivity | simpl; lia]. Qed.

Lemma budget_raise {A} n (e : Exn) : runner_budget (W:=W) (A:=A) n (raise e).
Proof. intros s. exists []. rewrite app_nil_r. split; [reflexivity | simpl; lia]. Qed.

Lemma budget_read {A} n (f : Driver -> A) : runner_budget (W:=W) n (read f).
Proof. intros s. exists []. rewrite app_nil_r. split; [reflexivity | simpl; lia]. Qed.

Lemma budget_write n (f : Driver -> Driver) : runner_budget (W:=W) n (write f).
Proof. intros s. exists []. rewrite app_nil_r. split; [reflexivity | simpl; lia]. Qed.

Lemma budget_ask_queue {A} n (c : Call) (f : W -> A * W) :
  is_runner_call c = false -> runner_budget n (ask c f).
Proof.
  intros Hc s. exists [c]. unfold ask. destruct (f (world s)) as [r w].
  split; [reflexivity|]. unfold runner_calls. simpl. rewrite Hc. simpl. lia.
Qed.

Lemma budget_tell_queue n (c : Call) (f : W -> W) :
  is_runner_call c = false -> runner_budget n (tell c f).
Proof.
  intros Hc s. exists [c]. split; [reflexivity|].
  unfold runner_calls. simpl. rewrite Hc. simpl. lia.
Qed.

Lemma budget_ask_runner {A} n (c : Call) (f : W -> A * W) :
  runner_budget (S n) (ask c f).
Proof.
  intros s. exists [c]. unfold ask. destruct (f (world s)) as [r w].
  split; [reflexivity|]. unfold runner_calls. simpl.
  destruct (is_runner_call c); simpl; lia.
Qed.

Lemma budget_tell_runner n (c : Call) (f : W -> W) :
  runner_budget (S n) (tell c f).
Proof.
  intros s. exists [c]. split; [reflexivity|]. unfold runner_calls. simpl.
  destruct (is_runner_call c); simpl; lia.
Qed.

Lemma budget_bind {A B} n k (m : M W A) (f : A -> M W B) :
  runner_budget n m -> (forall a, runner_budget k (f a)) ->
  runner_budget (n + k) (m ≫= f).
Proof.
  intros Hm Hf s. unfold mbind, M_bind.
  destruct (Hm s) as (cs1 & E1 & L1).
  destruct (m s) as [[a|e] s1]; simpl in E1.
  - destruct (Hf a s1) as (cs2 & E2 & L2).
    exists (cs1 ++ cs2). rewrite E2, E1, app_assoc. split; [reflexivity|].
    unfold runner_calls in *. rewrite List.filter_app, length_app. lia.
  - exists cs1. simpl. split; [exact E1 | lia].
Qed.

Lemma budget_bind_quiet {A B} k (m : M W A) (f : A -> M W B) :
  runner_budget 0 m -> (forall a, runner_budget k (f a)) ->
  runner_budget k (m ≫= f).
Proof. intros Hm Hf. exact (budget_bind 0 k m f Hm Hf). Qed.

Lemma budget_bind_then_quiet {A B} k (m : M W A) (f : A -> M W B) :
  runner_budget k m -> (forall a, runner_budget 0 (f a)) ->
  runner_budget k (m ≫= f).
Proof.
  intros Hm Hf. replace k with (k + 0)%nat by lia.
  now apply budget_bind.
Qed.

Lemma budget_set_status n (msg : string) : runner_budget (W:=W) n (_set_status msg).
Proof.
  intros s. exists []. rewrite app_nil_r. split; [|simpl; lia].
  unfold _set_status, read, write, mbind, M_bind, mret, M_ret. simpl.
  now destruct (bool_decide _).
Qed.

(** One step on a goal [runner_budget n m], by the shape of [m]. *)
Ltac budget_step :=
  lazymatch goal with
  | |- runner_budget _ (mret _) => apply budget_ret
  | |- runner_budget _ (raise _) => apply budget_raise
  | |- runner_budget _ (read _) => apply budget_read
  | |- runner_budget _ (write _) => apply budget_write
  | |- runner_budget _ (_set_status _) => apply budget_set_status
  | |- runner_budget _ (ask _ _) =>
      first [ apply budget_ask_queue; reflexivity | apply budget_ask_runner ]
  | |- runner_budget _ (tell _ _) =>
      first [ apply budget_tell_queue; reflexivity | apply budget_tell_runner ]
  | |- runner_budget _ (if ?b then _ else _) => destruct b
  | |- runner_budget _ (match ?x with _ => _ end) => destruct x
  | |- runner_budget _ (_ ≫= _) =>
      first [ apply budget_bind_quiet; [solve [repeat budget_step] | intros ?]
            | apply budget_bind_then_quiet; [solve [repeat budget_step] | intros ?] ]
  end.

Lemma budget_state_start_print a p : runner_budget 1 (_state_start_print a p).
Proof. unfold _state_start_print. repeat budget_step. Qed.

Lemma budget_enter_start_print a p : runner_budget 1 (_enter_start_print a p).
Proof.
  unfold _enter_start_print.
  apply budget_bind_then_quiet; [apply budget_state_start_print|].
  intros nxt. repeat budget_step.
Qed.

Lemma budget_call_state st a p : runner_budget 1 (call_state st a p).
Proof.
  destruct st; cbn [call_state];
    [ unfold _state_unknown | unfold _state_inactive
    | apply budget_state_start_print | unfold _state_printing
    | unfold _state_paused | unfold _state_spaghetti_recovery
    | unfold _state_failure | unfold _state_success
    | unfold _state_start_clearing | unfold _state_clearing
    | unfold _state_start_finishing | unfold _state_finishing ];
    repeat first [ apply budget_enter_start_print | budget_step ].
Qed.

Lemma budget_action a p path materials :
  runner_budget 1 (action a p path materials).
Proof.
  unfold action.
  apply budget_bind_quiet; [repeat budget_step | intros _].
  apply budget_bind_quiet; [repeat budget_step | intros _].
  apply budget_bind_quiet; [repeat budget_step | intros st].
  apply budget_bind_then_quiet; [apply budget_call_state | intros nxt].
  repeat budget_step.
Qed.
End DriverFacts.

(** C4. One call of [Driver.action], whatever the state, the event, the
    printer status and the collaborators, and whether it returns or raises,
    only adds to the calls made so far, and adds at most one call on the
    script runner ([start_print], [cancel_print], [clear_bed] or
    [run_finish_script]); the pre-call of [_state_start_print] made by
    [_enter_start_print] is part of that one call of [action]. *)
Theorem action_at_most_one_runner_call {W : Type} `{!Collaborators W}
    (a : Action) (p : Printer) (path : option string)
    (materials : list (option string)) (s : Sys W) :
  exists cs : list Call,
    calls (snd (action a p path materials s)) = calls s ++ cs
    /\ (length (runner_calls cs) <= 1)%nat.
Proof. exact (budget_action a p path materials s). Qed.

Lemma Qltb_lt (x y : Q) : Qltb x y = true <-> (x < y)%Q.
Proof.
  unfold Qltb. rewrite negb_true_iff. split.
  - intros Hle. apply Qnot_le_lt. intros Hyx.
    apply Qle_bool_iff in Hyx. congruence.
  - intros Hlt. destruct (Qle_bool y x) eqn:E; [|reflexivity].
    apply Qle_bool_iff in E. exfalso. now apply (Qlt_not_le x y).
Qed.

(** The material check passes exactly when every entry that is not [None]
    is the spool loaded in the tool of the same index. *)
Lemma first_mismatch_None (k : nat) (materials cur_materials : list (option string)) :
  first_mismatch k materials cur_materials = None <->
  forall (i : nat) (im : string),
    materials !! i = Some (Some im) -> cur_materials !! (k + i)%nat = Some (Some im).
Proof.
  revert k. induction materials as [|m rest IH]; intros k; simpl.
  - split; [intros _ i im Hi; discriminate | reflexivity].
  - destruct m as [im|].
    + case_bool_decide as Heq.
      * rewrite IH. split.
        -- intros Hrest [|i] im' Hi; simpl in Hi.
           ++ injection Hi as ->. rewrite Nat.add_0_r.
              destruct (cur_materials !! k) as [c|]; congruence.
           ++ rewrite <- Nat.add_succ_comm. now apply Hrest.
        -- intros Hall i im' Hi. rewrite Nat.add_succ_comm.
           now apply (Hall (S i)).
      * split; [discriminate|]. intros Hall. exfalso. apply Heq.
        specialize (Hall 0%nat im eq_refl). rewrite Nat.add_0_r in Hall.
        now rewrite Hall.
    + rewrite IH. split.
      * intros Hrest [|i] im' Hi; simpl in Hi; [discriminate|].
        rewrite <- Nat.add_succ_comm. now apply Hrest.
      * intros Hall i im' Hi. rewrite Nat.add_succ_comm.
        now apply (Hall (S i)).
Qed.

(** *** Transitions *)

Ltac unfold_handlers :=
  unfold _state_unknown, _state_inactive, _enter_start_print,
    _state_printing, _state_paused, _state_spaghetti_recovery,
    _state_failure, _state_success, _state_start_clearing, _state_clearing,
    _state_start_finishing, _state_finishing.

Ltac unfold_monad :=
  unfold _set_status, read, write, ask, tell, raise, mbind, mret, M_bind, M_ret,
    set_status_field, set_state, set_retries, set_update_ui, set_cur_path,
    set_cur_materials.

(** Name the parts of a system whose driver is in a known state. *)
Ltac open_sys s Hst :=
  destruct s as [[status0 st0 retries0 enabled0 max0 threshold0 first0 ui0
                  cur_path0 cur_materials0] w0 cs0];
  cbn [driver world calls state retries retry_on_pause max_retries
       retry_threshold_seconds _cur_materials _cur_path] in *;
  try (rewrite Hst in *; clear Hst).

(** Case on what the arguments [path] and [materials] of [action] do, and
    on the comparisons of status texts and the flag they guard. *)
Ltac split_status :=
  repeat first
    [ case_bool_decide; cbn
    | match goal with
      | |- context [if ?b then _ else _] => is_var b; destruct b; cbn
      end ].

Section Transitions.
Context {W : Type} `{!Collaborators W}.
Implicit Types (a : Action) (p : Printer) (path : option string)
  (materials : list (option string)) (s : Sys W).

(** C8, as the code has it. In [Paused], the event DEACTIVATE (whatever
    the printer status) and the printer status IDLE (whatever the event)
    lead to [Inactive]; any other event, ACTIVATE included, leads to
    [Printing] when the printer is BUSY and stays in [Paused] when it is
    PAUSED. No collaborator is called. *)
Theorem paused_transitions a p path materials s :
  state (driver s) = Paused ->
  let s' := snd (action a p path materials s) in
  (a = DEACTIVATE \/ p = IDLE -> state (driver s') = Inactive)
  /\ (a <> DEACTIVATE -> p = BUSY -> state (driver s') = Printing)
  /\ (a <> DEACTIVATE -> p = PAUSED -> state (driver s') = Paused)
  /\ calls s' = calls s /\ world s' = world s.
Proof.
  intros Hst. open_sys s Hst.
  unfold action, call_state. unfold_handlers. unfold_monad.
  destruct path, materials, a, p; cbn; split_status;
    (repeat split; try reflexivity;
     try (intros [?|?]; congruence); intros; congruence).
Qed.

(** C10. In [Printing], when [get_set()] returns [None], the event
    SUCCESS makes [action] raise the [AttributeError] of reading [path]
    from [None], whatever the printer status, and the driver is left in
    [Printing]; with the same queue, an event that reaches the status
    branch (ACTIVATE or TICK) with the printer BUSY returns normally and
    stays in [Printing]. *)
Theorem printing_success_without_set_raises p path materials s :
  state (driver s) = Printing ->
  fst (get_set (world s)) = None ->
  fst (action SUCCESS p path materials s) = Raised (AttributeError "path")
  /\ state (driver (snd (action SUCCESS p path materials s))) = Printing
  /\ forall a, a = ACTIVATE \/ a = TICK ->
       (exists b, fst (action a BUSY path materials s) = Returned b)
       /\ state (driver (snd (action a BUSY path materials s))) = Printing.
Proof.
  intros Hst Hset. open_sys s Hst.
  unfold action, call_state. unfold_handlers. unfold_monad.
  destruct (get_set w0) as [item w1] eqn:Hget. simpl in Hset. subst item.
  split; [|split].
  - destruct path, materials; cbn; rewrite Hget; reflexivity.
  - destruct path, materials; cbn; rewrite Hget; reflexivity.
  - intros a [-> | ->]; destruct path, materials; cbn; rewrite Hget; cbn;
      split_status; (split; [eexists; reflexivity | reflexivity]).
Qed.
Lemma spaghetti_recovery_paused a path materials s :
  state (driver s) = SpaghettiRecovery ->
  let s' := snd (action a PAUSED path materials s) in
  state (driver s') = Failure
  /\ calls s' = calls s ++ [runner_cancel_print]
  /\ world s' = cancel_print (world s).
Proof.
  intros Hst. open_sys s Hst.
  unfold action, call_state. unfold_handlers. unfold_monad.
  destruct path, materials; cbn; split_status; repeat split; reflexivity.
Qed.

(** C2. In [Printing] with a run open, the event SPAGHETTI compares the
    time since the run's start with the threshold: when [retry_on_pause]
    is set and the elapsed time is strictly below
    [retry_threshold_seconds] the driver goes to [SpaghettiRecovery]
    without calling the runner, and from there the next call made with
    the printer PAUSED calls [cancel_print] and goes to [Failure];
    otherwise it goes to [Paused]. *)
Theorem printing_spaghetti p path materials s run w1 now w2 :
  state (driver s) = Printing ->
  get_run (world s) = (Some run, w1) ->
  time_time w1 = (now, w2) ->
  let elapsed := (now - Run.start run)%Q in
  let s1 := snd (action SPAGHETTI p path materials s) in
  (retry_on_pause (driver s) = true
   /\ (elapsed < retry_threshold_seconds (driver s))%Q ->
     state (driver s1) = SpaghettiRecovery
     /\ calls s1 = calls s ++ [q_get_run; clock_time]
     /\ forall a' path' materials',
          let s2 := snd (action a' PAUSED path' materials' s1) in
          state (driver s2) = Failure
          /\ calls s2 = calls s1 ++ [runner_cancel_print])
  /\ (retry_on_pause (driver s) = false
      \/ ~ (elapsed < retry_threshold_seconds (driver s))%Q ->
     state (driver s1) = Paused
     /\ calls s1 = calls s ++ [q_get_run; clock_time]).
Proof.
  intros Hst Hrun Hnow elapsed s1.
  assert (Hs1 : state (driver s1) =
                (if retry_on_pause (driver s)
                    && Qltb elapsed (retry_threshold_seconds (driver s))
                 then SpaghettiRecovery else Paused)
                /\ calls s1 = calls s ++ [q_get_run; clock_time]).
  { subst s1 elapsed. open_sys s Hst.
    unfold action, call_state. unfold_handlers. unfold_monad.
    destruct path, materials; cbn; rewrite Hrun; cbn; rewrite Hnow; cbn;
      destruct (enabled0 && _); cbn; split_status;
      rewrite <- app_assoc; split; reflexivity. }
  destruct Hs1 as [Hstate Hcalls]. split.
  - intros [Hen Hlt]. apply Qltb_lt in Hlt. rewrite Hen, Hlt in Hstate.
    split; [exact Hstate|]. split; [exact Hcalls|].
    intros a' path' materials' s2.
    destruct (spaghetti_recovery_paused a' path' materials' s1 Hstate)
      as (H1 & H2 & _).
    split; assumption.
  - intros Hcase. split; [|exact Hcalls]. rewrite Hstate.
    destruct Hcase as [Hen|Hge]; [now rewrite Hen|].
    destruct (Qltb elapsed (retry_threshold_seconds (driver s))) eqn:E.
    + apply Qltb_lt in E. contradiction.
    + now rewrite andb_false_r.
Qed.
End Transitions.

Section Starting.
Context {W : Type} `{!Collaborators W}.
Implicit Types (a : Action) (p : Printer) (path : option string)
  (materials : list (option string)) (s : Sys W).

(** [_state_start_print] with the printer idle, a set on offer, the
    material check passing and the runner starting the print. *)
Lemma state_start_print_starts a s item w1 w2 :
  a <> DEACTIVATE ->
  get_set_or_acquire (world s) = (Some item, w1) ->
  first_mismatch 0 (Some <$> Set_.materials item) (_cur_materials (driver s))
    = None ->
  start_print item (begin_run w1) = (true, w2) ->
  _state_start_print a IDLE s =
    (Returned (Some Printing),
     MkSys (driver s) w2
           (calls s ++ [q_get_set_or_acquire; q_begin_run;
                        runner_start_print item])).
Proof.
  intros Ha Hget Hmat Hstart. unfold _state_start_print.
  replace (Action_eqb a DEACTIVATE) with false by now destruct a.
  unfold_monad. cbn. rewrite Hget. cbn. rewrite Hmat. cbn.
  rewrite Hstart. cbn. now rewrite <- !app_assoc.
Qed.

Local Arguments _state_start_print : simpl never.

(** C9. When a call of [action] enters [StartPrint] with the printer
    IDLE, from [Inactive] on ACTIVATE or from [Clearing] on SUCCESS (or on
    an idle printer seen with no completion event), and the queue offers a
    set whose every required material is the one loaded in the same tool,
    and [start_print] answers true, then that same call returns with the
    driver in [Printing], having opened the run and started the print. *)
Theorem entering_start_print_reaches_printing a path materials s item w1 w2 :
  (state (driver s) = Inactive /\ a = ACTIVATE)
  \/ (state (driver s) = Clearing
      /\ (a = SUCCESS \/ a = TICK \/ a = ACTIVATE \/ a = SPAGHETTI)) ->
  get_set_or_acquire (world s) = (Some item, w1) ->
  (forall (i : nat) (im : string),
      Set_.materials item !! i = Some im ->
      (if (0 <? length materials)%nat then materials
       else _cur_materials (driver s)) !! i = Some (Some im)) ->
  start_print item (begin_run w1) = (true, w2) ->
  let r := action a IDLE path materials s in
  fst r = Returned true
  /\ state (driver (snd r)) = Printing
  /\ calls (snd r) = calls s ++ [q_get_set_or_acquire; q_begin_run;
                                 runner_start_print item]
  /\ world (snd r) = w2.
Proof.
  intros Hfrom Hget Hmat Hstart r.
  assert (Hmis : first_mismatch 0 (Some <$> Set_.materials item)
                   (if (0 <? length materials)%nat then materials
                    else _cur_materials (driver s)) = None).
  { apply first_mismatch_None. intros i im Hi.
    rewrite list_lookup_fmap in Hi.
    destruct (Set_.materials item !! i) as [im'|] eqn:Him; [|discriminate].
    simpl in Hi. injection Hi as ->. now apply Hmat. }
  clear Hmat. subst r.
  destruct s as [[status0 st0 retries0 enabled0 max0 threshold0 first0 ui0
                  cur_path0 cur_materials0] w0 cs0].
  cbn [driver world calls state _cur_materials] in *.
  assert (Ha : a <> DEACTIVATE)
    by (destruct Hfrom as [[_ ->]|[_ [->|[->|[->| ->]]]]]; discriminate).
  destruct Hfrom as [[-> ->]|[-> Ha']].
  - unfold action, call_state, _state_inactive, _enter_start_print.
    unfold_monad.
    destruct path, materials; cbn;
      (erewrite state_start_print_starts;
       [cbn; repeat split; reflexivity | exact Ha | exact Hget
       | exact Hmis | exact Hstart]).
  - unfold action, call_state, _state_clearing, _enter_start_print.
    unfold_monad.
    destruct Ha' as [->|[->|[->| ->]]]; destruct path, materials; cbn;
      (erewrite state_start_print_starts;
       [cbn; repeat split; reflexivity | discriminate | exact Hget
       | exact Hmis | exact Hstart]).
Qed.
End Starting.

Section Retrying.
Context {W : Type} `{!Collaborators W}.
Implicit Types (a : Action) (p : Printer) (path : option string)
  (materials : list (option string)) (s : Sys W).

(** [Failure] with the printer idle: one more attempt while
    [retries + 1 < max_retries], otherwise the run is closed as failed. *)
Lemma failure_idle a path materials s :
  state (driver s) = Failure ->
  let s' := snd (action a IDLE path materials s) in
  (retries (driver s) + 1 < max_retries (driver s) ->
     state (driver s') = StartClearing
     /\ retries (driver s') = retries (driver s) + 1
     /\ calls s' = calls s /\ world s' = world s)
  /\ (max_retries (driver s) <= retries (driver s) + 1 ->
     state (driver s') = Inactive
     /\ retries (driver s') = retries (driver s)
     /\ calls s' = calls s ++ [q_end_run "failure"]
     /\ world s' = end_run "failure" (world s)).
Proof.
  intros Hst. open_sys s Hst.
  unfold action, call_state. unfold_handlers. unfold_monad.
  split; intros Hr.
  - apply Z.ltb_lt in Hr.
    destruct path, materials; cbn; rewrite Hr; cbn; repeat split; reflexivity.
  - apply Z.ltb_ge in Hr.
    destruct path, materials; cbn; rewrite Hr; cbn; repeat split; reflexivity.
Qed.

(** [Failure] with the printer not idle waits, whatever the event. *)
Lemma failure_waits a p path materials s :
  state (driver s) = Failure -> p <> IDLE ->
  let s' := snd (action a p path materials s) in
  state (driver s') = Failure /\ calls s' = calls s /\ world s' = world s.
Proof.
  intros Hst Hp. open_sys s Hst.
  unfold action, call_state. unfold_handlers. unfold_monad.
  destruct p; [contradiction| |];
    destruct path, materials; cbn; split_status; repeat split; reflexivity.
Qed.

Local Arguments _state_start_print : simpl never.

(** C3, as the code has it. With [max_retries = 2] and [retries = 0], a
    print that fails is attempted once more: the first failure, once the
    printer is idle, goes through [StartClearing] and [Clearing] back to
    [Printing]; the second failure, once the printer is idle, closes the
    run with ["failure"] and leaves the driver [Inactive]. *)
Theorem max_retries_2_gives_one_retry p1 p2 s item w1 w2 :
  state (driver s) = Printing ->
  retries (driver s) = 0 ->
  max_retries (driver s) = 2 ->
  get_set_or_acquire (clear_bed (world s)) = (Some item, w1) ->
  (forall (i : nat) (im : string),
      Set_.materials item !! i = Some im ->
      _cur_materials (driver s) !! i = Some (Some im)) ->
  start_print item (begin_run w1) = (true, w2) ->
  let inputs : list Input :=
    [ (FAILURE, p1, None, []); (TICK, IDLE, None, []);
      (TICK, IDLE, None, []); (TICK, IDLE, None, []);
      (FAILURE, p2, None, []); (TICK, IDLE, None, []) ] in
  states_after inputs s
    = [Failure; StartClearing; Clearing; Printing; Failure; Inactive]
  /\ calls (snd (actions inputs s))
     = calls s ++ [runner_clear_bed; q_get_set_or_acquire; q_begin_run;
                   runner_start_print item; q_end_run "failure"]
  /\ world (snd (actions inputs s)) = end_run "failure" w2.
Proof.
  intros Hst Hr Hm Hget Hmat Hstart inputs.
  assert (Hmis : first_mismatch 0 (Some <$> Set_.materials item)
                   (_cur_materials (driver s)) = None).
  { apply first_mismatch_None. intros i im Hi.
    rewrite list_lookup_fmap in Hi.
    destruct (Set_.materials item !! i) as [im'|] eqn:Him; [|discriminate].
    simpl in Hi. injection Hi as ->. now apply Hmat. }
  clear Hmat. subst inputs. open_sys s Hst. subst retries0 max0.
  cbn [states_after actions].
  unfold action, call_state, _state_printing, _state_failure,
    _state_start_clearing, _state_clearing, _enter_start_print.
  unfold_monad. cbn.
  change (0 + 1 <? 2) with true. cbn.
  erewrite !state_start_print_starts;
    [| discriminate | exact Hget | exact Hmis | exact Hstart .. ].
  cbn. change (0 + 1 + 1 <? 2) with false. cbn.
  rewrite <- !app_assoc. repeat split; reflexivity.
Qed.
End Retrying.

Section Deactivating.
Context {W : Type} `{!Collaborators W}.
Implicit Types (p : Printer) (path : option string)
  (materials : list (option string)) (s : Sys W).

(** The handlers that look at the event send DEACTIVATE to [Inactive]
    ([Inactive] itself stays where it is). *)
Lemma deactivate_escapes p path materials s :
  state (driver s) <> Failure ->
  state (driver s) <> Success ->
  state (driver s) <> SpaghettiRecovery ->
  state (driver (snd (action DEACTIVATE p path materials s))) = Inactive.
Proof.
  intros HF HS HR.
  destruct s as [[status0 st0 retries0 enabled0 max0 threshold0 first0 ui0
                  cur_path0 cur_materials0] w0 cs0].
  cbn [driver state] in *.
  unfold action, call_state. unfold_handlers. unfold _state_start_print.
  unfold_monad.
  destruct st0; try contradiction;
    destruct p, path, materials; cbn; split_status; reflexivity.
Qed.
End Deactivating.

(** C1 fails on the code. A driver brought to [Failure] by
    DEACTIVATE, ACTIVATE (printer busy) and FAILURE stays in [Failure] on
    DEACTIVATE while the printer is busy; from [Printing], an idle tick
    leads to [Success], where DEACTIVATE moves on to [StartClearing]; and
    in [SpaghettiRecovery], reached by an early SPAGHETTI, DEACTIVATE
    leaves the driver there while the printer is busy and goes to
    [Failure] once it is paused. None of the three handlers looks at the
    event. *)
Theorem deactivate_ignored_in_failure :
  states_after
    [ (DEACTIVATE, IDLE, None, []); (ACTIVATE, BUSY, None, []);
      (FAILURE, BUSY, None, []); (DEACTIVATE, BUSY, None, []) ]
    (Scripted.fresh (offering set_plain 0))
  = [Inactive; Printing; Failure; Failure]
  /\ states_after
       [ (DEACTIVATE, IDLE, None, []); (ACTIVATE, BUSY, None, []);
         (TICK, IDLE, None, []); (DEACTIVATE, IDLE, None, []) ]
       (Scripted.fresh (offering set_plain 0))
     = [Inactive; Printing; Success; StartClearing]
  /\ states_after
       [ (DEACTIVATE, IDLE, None, []); (ACTIVATE, BUSY, None, []);
         (SPAGHETTI, BUSY, None, []); (DEACTIVATE, BUSY, None, []);
         (DEACTIVATE, PAUSED, None, []) ]
       (driver_in Unknown true 3 3600 (printing_since 1000 1010))
     = [Inactive; Printing; SpaghettiRecovery; SpaghettiRecovery; Failure].
Proof. repeat split; vm_compute; reflexivity. Qed.

(** C3 as stated fails on the code: with [max_retries = 2] and [retries = 0]
    the second failure already closes the run as failed and leaves the
    driver [Inactive]; there is no second pass through [StartClearing]. *)
Lemma second_failure_closes_run_with_max_retries_2 :
  let inputs : list Input :=
    [ (FAILURE, BUSY, None, []); (TICK, IDLE, None, []);
      (TICK, IDLE, None, []); (TICK, IDLE, None, []);
      (FAILURE, BUSY, None, []); (TICK, IDLE, None, []) ] in
  let s := driver_in Printing true 2 3600 (offering set_plain 0) in
  retries (driver s) = 0 /\ max_retries (driver s) = 2
  /\ states_after inputs s
     = [Failure; StartClearing; Clearing; Printing; Failure; Inactive]
  /\ last (states_after inputs s) <> Some StartClearing
  /\ calls (snd (actions inputs s))
     = [runner_clear_bed; q_get_set_or_acquire; q_begin_run;
        runner_start_print set_plain; q_end_run "failure"].
Proof. cbv zeta. repeat split; try (vm_compute; reflexivity). vm_compute. discriminate. Qed.

Lemma max_retries_2_gives_one_retry_witness :
  let inputs : list Input :=
    [ (FAILURE, BUSY, None, []); (TICK, IDLE, None, []);
      (TICK, IDLE, None, []); (TICK, IDLE, None, []);
      (FAILURE, BUSY, None, []); (TICK, IDLE, None, []) ] in
  let s := driver_in Printing true 2 3600 (offering set_plain 0) in
  states_after inputs s
  = [Failure; StartClearing; Clearing; Printing; Failure; Inactive].
Proof.
  cbv zeta.
  refine (proj1 (max_retries_2_gives_one_retry BUSY BUSY
                   (driver_in Printing true 2 3600 (offering set_plain 0))
                   set_plain (offering set_plain 0)
                   (Scripted.with_open_run
                      (Some (Scripted.new_run (offering set_plain 0)))
                      (offering set_plain 0))
                   _ _ _ _ _ _)).
  - reflexivity.
  - reflexivity.
  - reflexivity.
  - reflexivity.
  - intros i im Hi. vm_compute in Hi. destruct i; discriminate.
  - reflexivity.
Defined.

(** C8 as stated fails on the code: in [Paused], ACTIVATE with the printer
    busy resumes [Printing], and ACTIVATE with the printer paused stays in
    [Paused]; neither goes to [Inactive]. *)
Lemma paused_activate_does_not_deactivate :
  states_after
    [ (DEACTIVATE, IDLE, None, []); (ACTIVATE, BUSY, None, []);
      (TICK, PAUSED, None, []); (ACTIVATE, BUSY, None, []) ]
    (Scripted.fresh (offering set_plain 0))
  = [Inactive; Printing; Paused; Printing]
  /\ states_after
       [ (DEACTIVATE, IDLE, None, []); (ACTIVATE, BUSY, None, []);
         (TICK, PAUSED, None, []); (ACTIVATE, PAUSED, None, []) ]
       (Scripted.fresh (offering set_plain 0))
     = [Inactive; Printing; Paused; Paused].
Proof. split; vm_compute; reflexivity. Qed.

Lemma paused_transitions_witness :
  let s := driver_in Paused false 0 0 (offering set_plain 0) in
  state (driver s) = Paused
  /\ state (driver (snd (action DEACTIVATE BUSY None [] s))) = Inactive
  /\ state (driver (snd (action ACTIVATE BUSY None [] s))) = Printing.
Proof.
  cbv zeta. split; [reflexivity|]. split.
  - apply (proj1 (paused_transitions DEACTIVATE BUSY None []
                    (driver_in Paused false 0 0 (offering set_plain 0)) eq_refl)).
    left. reflexivity.
  - apply (proj1 (proj2 (paused_transitions ACTIVATE BUSY None []
                    (driver_in Paused false 0 0 (offering set_plain 0)) eq_refl))).
    + discriminate.
    + reflexivity.
Defined.

Lemma printing_success_without_set_raises_witness :
  let s := driver_in Printing false 0 0 (nothing_selected 0) in
  fst (get_set (world s)) = None
  /\ fst (action SUCCESS BUSY None [] s) = Raised (AttributeError "path").
Proof.
  cbv zeta. split; [reflexivity|].
  exact (proj1 (printing_success_without_set_raises BUSY None []
                 (driver_in Printing false 0 0 (nothing_selected 0))
                 eq_refl eq_refl)).
Defined.

Lemma printing_spaghetti_witness :
  let early := driver_in Printing true 3 3600 (printing_since 1000 1010) in
  let late := driver_in Printing true 3 3600 (printing_since 1000 5000) in
  let s1 := snd (action SPAGHETTI BUSY None [] early) in
  state (driver s1) = SpaghettiRecovery
  /\ state (driver (snd (action TICK PAUSED None [] s1))) = Failure
  /\ calls (snd (action TICK PAUSED None [] s1))
     = calls s1 ++ [runner_cancel_print]
  /\ state (driver (snd (action SPAGHETTI BUSY None [] late))) = Paused.
Proof.
  cbv zeta.
  pose proof (printing_spaghetti BUSY None []
                (driver_in Printing true 3 3600 (printing_since 1000 1010))
                _ _ _ _ eq_refl eq_refl eq_refl) as [Hearly _].
  pose proof (printing_spaghetti BUSY None []
                (driver_in Printing true 3 3600 (printing_since 1000 5000))
                _ _ _ _ eq_refl eq_refl eq_refl) as [_ Hlate].
  destruct Hearly as (H1 & _ & H2); [split; reflexivity|].
  destruct Hlate as (H3 & _);
    [right; intros Hlt; vm_compute in Hlt; discriminate|].
  split; [exact H1|].
  split; [exact (proj1 (H2 TICK None []))|].
  split; [exact (proj2 (H2 TICK None [])) | exact H3].
Defined.

Lemma entering_start_print_reaches_printing_witness :
  let s := driver_in Inactive false 0 0 (offering set_red 0) in
  let r := action ACTIVATE IDLE None [Some "PLA-Red"] s in
  fst r = Returned true /\ state (driver (snd r)) = Printing.
Proof.
  cbv zeta.
  pose proof (entering_start_print_reaches_printing ACTIVATE None
                [Some "PLA-Red"]
                (driver_in Inactive false 0 0 (offering set_red 0))
                set_red (offering set_red 0)
                (Scripted.with_open_run
                   (Some (Scripted.new_run (offering set_red 0)))
                   (offering set_red 0))) as H.
  destruct H as (H1 & H2 & _).
  - left. split; reflexivity.
  - reflexivity.
  - intros i im Hi. vm_compute in Hi.
    destruct i as [|i]; [|destruct i; discriminate].
    injection Hi as <-. reflexivity.
  - reflexivity.
  - split; assumption.
Defined.

(** The material-gated wait of a set that asks for one spool: with another
    spool loaded the driver waits in [StartPrint] and names tool 0; once the
    right spool is reported, the next call opens the run and starts the
    print. *)
Example material_gated_wait :
  let inputs : list Input :=
    [ (DEACTIVATE, IDLE, None, []);
      (ACTIVATE, IDLE, None, [Some "PLA-Black"]);
      (TICK, IDLE, None, [Some "PLA-Red"]) ] in
  let s := Scripted.fresh (offering set_red 0) in
  states_after (firstn 2 inputs) s = [Inactive; StartPrint]
  /\ status (driver (snd (actions (firstn 2 inputs) s)))
     = Some "Waiting for spool PLA-Red in tool 0 (currently: PLA-Black)"
  /\ states_after inputs s = [Inactive; StartPrint; Printing]
  /\ calls (snd (actions inputs s))
     = [q_get_set_or_acquire; q_get_set_or_acquire; q_begin_run;
        runner_start_print set_red].
Proof. cbv zeta. repeat split; vm_compute; reflexivity. Qed.

(** C5 fails on the code for an empty entry of a stored set. The set
    [set_tool1_red] has the keys [",PLA-Red"]: nothing asked of tool 0,
    PLA-Red asked of tool 1. [Set.materials] reads the empty entry back as
    the empty string, never as [None], so the check does not skip it: with
    PLA-Black in tool 0 and PLA-Red in tool 1 the driver waits in
    [StartPrint] for a spool with the empty name in tool 0, call after
    call, and neither opens a run nor starts the print. *)
Theorem empty_material_entry_is_not_skipped :
  let loaded := [Some "PLA-Black"; Some "PLA-Red"] in
  let inputs : list Input :=
    [ (DEACTIVATE, IDLE, None, []); (ACTIVATE, IDLE, None, loaded);
      (TICK, IDLE, None, loaded) ] in
  let s := Scripted.fresh (offering set_tool1_red 0) in
  Set_.materials set_tool1_red = [""; "PLA-Red"]
  /\ states_after inputs s = [Inactive; StartPrint; StartPrint]
  /\ status (driver (snd (actions inputs s)))
     = Some "Waiting for spool  in tool 0 (currently: PLA-Black)"
  /\ calls (snd (actions inputs s))
     = [q_get_set_or_acquire; q_get_set_or_acquire].
Proof. cbv zeta. repeat split; vm_compute; reflexivity. Qed.


(** * Further properties *)

(** ** Material keys *)

Lemma string_app_cons (c : ascii) (s t : string) :
  String c s +:+ t = String c (s +:+ t).
Proof. reflexivity. Qed.

Lemma string_app_nil_l (s : string) : "" +:+ s = s.
Proof. reflexivity. Qed.

Lemma string_app_nil_r (s : string) : s +:+ "" = s.
Proof.
  induction s as [|c s IH]; [reflexivity|].
  now rewrite string_app_cons, IH.
Qed.

Lemma string_app_assoc (s1 s2 s3 : string) :
  (s1 +:+ s2) +:+ s3 = s1 +:+ (s2 +:+ s3).
Proof.
  induction s1 as [|c s1 IH]; [reflexivity|].
  now rewrite !string_app_cons, IH.
Qed.

Lemma string_rev_app (s acc : string) :
  String.rev_app s acc = String.rev s +:+ acc.
Proof.
  unfold String.rev. revert acc.
  induction s as [|c s IH]; intros acc; [reflexivity|].
  cbn [String.rev_app].
  rewrite (IH (String c acc)), (IH (String c "")), string_app_assoc.
  reflexivity.
Qed.

Lemma string_rev_cons (c : ascii) (s : string) :
  String.rev (String c s) = String.rev s +:+ String c "".
Proof. unfold String.rev at 1. cbn [String.rev_app]. apply string_rev_app. Qed.

Lemma split_on_not_nil (sep : ascii) (cur s : string) : split_on sep cur s <> [].
Proof.
  revert cur. induction s as [|c s IH]; intros cur; cbn [split_on]; [discriminate|].
  destruct (Ascii.eqb c sep); [discriminate | apply IH].
Qed.

Lemma concat_cons_nonempty (sep x : string) (l : list string) :
  l <> [] -> String.concat sep (x :: l) = x +:+ sep +:+ String.concat sep l.
Proof. destruct l; [contradiction | reflexivity]. Qed.

Lemma concat_split_on (cur s : string) :
  String.concat "," (split_on "," cur s) = String.rev cur +:+ s.
Proof.
  revert cur. induction s as [|c s IH]; intros cur; cbn [split_on].
  - cbn [String.concat]. now rewrite string_app_nil_r.
  - destruct (Ascii.eqb_spec c ",") as [->|Hc].
    + rewrite concat_cons_nonempty by apply split_on_not_nil.
      rewrite IH. reflexivity.
    + rewrite IH, string_rev_cons, string_app_assoc. reflexivity.
Qed.

Lemma split_on_length (cur s : string) :
  length (split_on "," cur s) = S (occurrences "," s).
Proof.
  revert cur. induction s as [|c s IH]; intros cur; cbn [split_on occurrences];
    [reflexivity|].
  destruct (Ascii.eqb c ","); cbn [length]; now rewrite IH.
Qed.

Lemma string_rev_rev_app (s acc : string) :
  String.rev (String.rev_app s acc) = String.rev acc +:+ s.
Proof.
  revert acc. induction s as [|c s IH]; intros acc; cbn [String.rev_app].
  - now rewrite string_app_nil_r.
  - rewrite IH, string_rev_cons, string_app_assoc. reflexivity.
Qed.

Lemma split_on_app_free (cur m rest : string) :
  occurrences "," m = 0%nat ->
  split_on "," cur (m +:+ rest) = split_on "," (String.rev_app m cur) rest.
Proof.
  revert cur. induction m as [|c m IH]; intros cur Hfree; [reflexivity|].
  rewrite string_app_cons. cbn [split_on String.rev_app].
  cbn [occurrences] in Hfree. destruct (Ascii.eqb c ","); [discriminate|].
  now apply IH.
Qed.

Lemma split_on_free (cur m : string) :
  occurrences "," m = 0%nat ->
  split_on "," cur m = [String.rev cur +:+ m].
Proof.
  intros Hfree. rewrite <- (string_app_nil_r m) at 1.
  rewrite split_on_app_free by exact Hfree. cbn [split_on].
  now rewrite string_rev_rev_app.
Qed.

Lemma split_comma_join (mats : list string) :
  mats <> [] ->
  Forall (fun m => occurrences "," m = 0%nat) mats ->
  split_comma (join_comma mats) = mats.
Proof.
  unfold split_comma, join_comma.
  induction mats as [|m rest IH]; intros Hne Hfree; [contradiction|].
  apply Forall_cons in Hfree as [Hm Hrest].
  destruct rest as [|m' rest'].
  - cbn [String.concat]. now rewrite split_on_free.
  - rewrite concat_cons_nonempty by discriminate.
    rewrite split_on_app_free by exact Hm.
    rewrite string_app_cons, string_app_nil_l.
    cbn [split_on]. rewrite Ascii.eqb_refl.
    rewrite IH by (discriminate || exact Hrest).
    rewrite string_rev_rev_app. reflexivity.
Qed.

(** X1. [Set.materials] loses nothing of the stored column: its entries
    joined by commas are [material_keys] again; it returns no entry exactly
    when the column is empty, and otherwise one entry more than the column
    has commas. *)
Theorem materials_joined_is_material_keys (self : Set_.t) :
  join_comma (Set_.materials self) = Set_.material_keys self
  /\ (Set_.materials self = [] <-> Set_.material_keys self = "")
  /\ (Set_.material_keys self <> "" ->
      length (Set_.materials self)
      = S (occurrences "," (Set_.material_keys self))).
Proof.
  unfold Set_.materials, join_comma, split_comma.
  destruct (String.eqb_spec (Set_.material_keys self) "") as [E|E].
  - rewrite E. repeat split; try reflexivity. intros H. now contradiction H.
  - split; [|split].
    + apply concat_split_on.
    + split; [intros H; now apply split_on_not_nil in H | contradiction].
    + intros _. apply split_on_length.
Qed.

(** X2. A list of keys stored the way [migrateFromSettings] stores it
    ([",".join(mats)]) is read back unchanged by [Set.materials], provided
    no key contains a comma and the list is neither empty nor the single
    empty key. *)
Theorem materials_of_joined_keys (self : Set_.t) (mats : list string) :
  mats <> [] -> mats <> [""] ->
  Forall (fun m => occurrences "," m = 0%nat) mats ->
  Set_.materials (with_material_keys (join_comma mats) self) = mats.
Proof.
  intros Hne Hne' Hfree. unfold Set_.materials. cbn [Set_.material_keys with_material_keys].
  destruct (String.eqb_spec (join_comma mats) "") as [E|E].
  - exfalso. destruct mats as [|m [|m' rest]]; [contradiction| |].
    + cbn [join_comma String.concat] in E. subst m. contradiction.
    + unfold join_comma in E. rewrite concat_cons_nonempty in E by discriminate.
      destruct m; [rewrite string_app_nil_l, string_app_cons in E
                  | rewrite string_app_cons in E]; discriminate.
  - now apply split_comma_join.
Qed.

Lemma materials_of_joined_keys_witness :
  Set_.materials (with_material_keys (join_comma [""; "PLA-Red"]) set_plain)
  = [""; "PLA-Red"].
Proof.
  apply materials_of_joined_keys.
  - discriminate.
  - discriminate.
  - repeat constructor.
Defined.

(** ** Passes and prints *)

Section Passes.
Implicit Types (j : Job.t) (s : Set_.t) (save : bool) (i : nat).

Lemma Job_decrement_bounded save j :
  Job.bounded j = true -> Job.bounded (snd (Job.decrement save j)) = true.
Proof.
  intros Hj. apply Job_bounded_spec in Hj as [Hr Hs].
  rewrite Job_decrement_job. cbv zeta. apply Job_bounded_spec.
  destruct (0 <? Z.max (Job.remaining j - 1) 0);
    cbn [Job.remaining Job.with_remaining Job.sets Job.with_sets Job.count].
  - split; [lia|]. unfold Job.update_remaining_to_count.
    apply Forall_fmap. eapply Forall_impl; [exact Hs|].
    intros s Hsb. unfold compose. cbv beta in Hsb.
    cbn [Set_.remaining Set_.count Set_.with_remaining]. lia.
  - split; [lia | exact Hs].
Qed.

Lemma has_incomplete_sets_false_iff j :
  Job.has_incomplete_sets j = false <->
  Forall (fun s => Set_.remaining s <= 0) (Job.sets j).
Proof.
  unfold Job.has_incomplete_sets.
  induction (Job.sets j) as [|s ss IH]; cbn [existsb].
  - split; [constructor | reflexivity].
  - rewrite orb_false_iff, IH, Forall_cons, Z.ltb_ge. tauto.
Qed.

(** X3. A job within its bounds has no work exactly when its own
    [remaining] and that of each of its sets are [0]. *)
Theorem has_work_false_iff_all_zero j :
  Job.bounded j = true ->
  (Job.has_work j = false <->
   Job.remaining j = 0 /\ Forall (fun s => Set_.remaining s = 0) (Job.sets j)).
Proof.
  intros Hb. apply Job_bounded_spec in Hb as [Hr Hs].
  unfold Job.has_work. rewrite orb_false_iff, has_incomplete_sets_false_iff, Z.ltb_ge.
  split.
  - intros [Hall H0]. split; [lia|].
    rewrite Forall_forall in *. intros s Hin.
    specialize (Hall s Hin). specialize (Hs s Hin). cbv beta in *. lia.
  - intros [H0 Hall]. split; [|lia].
    eapply Forall_impl; [exact Hall|]. intros s Hz. cbv beta in *. lia.
Qed.

Lemma has_work_false_iff_all_zero_witness :
  Job.has_work job_pass_done = false <->
  Job.remaining job_pass_done = 0
  /\ Forall (fun s => Set_.remaining s = 0) (Job.sets job_pass_done).
Proof. apply has_work_false_iff_all_zero. reflexivity. Defined.

Lemma normalize_unchanged j :
  Job.remaining j = 0 \/ Job.has_incomplete_sets j = true ->
  Job.normalize j = (Job.has_work j, j).
Proof.
  unfold Job.normalize, Job.has_work. intros [H0|Hinc].
  - rewrite H0. cbn. now rewrite orb_false_r.
  - rewrite Hinc. now destruct (Job.remaining j =? 0).
Qed.

Lemma normalize_decrements j :
  Job.remaining j <> 0 -> Job.has_incomplete_sets j = false ->
  Job.normalize j = Job.decrement true j.
Proof.
  intros H0 Hinc. unfold Job.normalize.
  apply Z.eqb_neq in H0. now rewrite H0, Hinc.
Qed.

Lemma normalize_cases j :
  Job.remaining j = 0 \/ Job.has_incomplete_sets j = true
  \/ (Job.remaining j <> 0 /\ Job.has_incomplete_sets j = false).
Proof.
  destruct (Z.eq_dec (Job.remaining j) 0); [tauto|].
  destruct (Job.has_incomplete_sets j); tauto.
Qed.

(** X4. [Job.normalize] returns [has_work] of the job as it leaves it; it
    leaves alone a job with no pass left or with an incomplete set, and
    takes all bounds along. *)
Theorem normalize_reports_work j :
  fst (Job.normalize j) = Job.has_work (snd (Job.normalize j))
  /\ (Job.remaining j = 0 \/ Job.has_incomplete_sets j = true ->
      snd (Job.normalize j) = j)
  /\ (Job.bounded j = true -> Job.bounded (snd (Job.normalize j)) = true).
Proof.
  destruct (normalize_cases j) as [H|[H|[H0 Hinc]]].
  - rewrite (normalize_unchanged j (or_introl H)). cbn [fst snd]. tauto.
  - rewrite (normalize_unchanged j (or_intror H)). cbn [fst snd]. tauto.
  - rewrite (normalize_decrements j H0 Hinc). split; [reflexivity|]. split.
    + intros [H|H]; [contradiction | congruence].
    + apply Job_decrement_bounded.
Qed.

(** X5. When some set of the job has a positive [count], normalizing
    twice is normalizing once: the second call changes nothing and returns
    the same answer. *)
Theorem normalize_idempotent j :
  existsb (fun s => 0 <? Set_.count s) (Job.sets j) = true ->
  Job.normalize (snd (Job.normalize j)) = Job.normalize j.
Proof.
  intros Hcount.
  destruct (normalize_cases j) as [H|[H|[H0 Hinc]]].
  - rewrite (normalize_unchanged j (or_introl H)). cbn [snd].
    apply normalize_unchanged. now left.
  - rewrite (normalize_unchanged j (or_intror H)). cbn [snd].
    apply normalize_unchanged. now right.
  - rewrite (normalize_decrements j H0 Hinc).
    set (j' := snd (Job.decrement true j)).
    assert (Hj' : Job.decrement true j = (Job.has_work j', j')) by reflexivity.
    rewrite Hj'. cbn [snd]. apply normalize_unchanged.
    assert (Hj'eq : j' = let r := Z.max (Job.remaining j - 1) 0 in
                         Job.with_remaining r
                           (if 0 <? r
                            then Job.with_sets
                                   (Job.update_remaining_to_count (Job.sets j)) j
                            else j)) by apply Job_decrement_job.
    cbv zeta in Hj'eq. rewrite Hj'eq.
    destruct (0 <? Z.max (Job.remaining j - 1) 0) eqn:Hpos.
    + right. unfold Job.has_incomplete_sets.
      cbn [Job.sets Job.with_remaining Job.with_sets].
      unfold Job.update_remaining_to_count.
      clear -Hcount. induction (Job.sets j) as [|s ss IH]; [discriminate|].
      cbn [existsb fmap list_fmap] in *.
      cbn [Set_.remaining Set_.with_remaining].
      apply orb_true_iff in Hcount as [H|H]; [now rewrite H|].
      rewrite (IH H). apply orb_true_r.
    + left. cbn [Job.remaining Job.with_remaining].
      apply Z.ltb_ge in Hpos. lia.
Qed.

Lemma normalize_idempotent_witness :
  Job.normalize (snd (Job.normalize job_pass_done)) = Job.normalize job_pass_done.
Proof. apply normalize_idempotent. reflexivity. Defined.

(** X6. A job without sets loses one pass at every call of
    [Job.normalize] until none is left, and is reported to have work only
    while more than one pass was left. *)
Theorem normalize_without_sets j :
  Job.sets j = [] ->
  Job.remaining (snd (Job.normalize j)) = Z.max (Job.remaining j - 1) 0
  /\ fst (Job.normalize j) = (1 <? Job.remaining j).
Proof.
  intros Hnil.
  assert (Hinc : forall k, Job.sets k = [] -> Job.has_incomplete_sets k = false).
  { intros k Hk. unfold Job.has_incomplete_sets. now rewrite Hk. }
  unfold Job.normalize. rewrite (Hinc j Hnil).
  destruct (Job.remaining j =? 0) eqn:E0; cbn [fst snd].
  - apply Z.eqb_eq in E0. rewrite E0. split; reflexivity.
  - rewrite Job_decrement_job. cbv zeta.
    assert (Hfst : fst (Job.decrement true j)
                   = Job.has_work (snd (Job.decrement true j))) by reflexivity.
    rewrite Hfst, Job_decrement_job. cbv zeta.
    split; [reflexivity|].
    unfold Job.has_work.
    rewrite Hinc.
    + cbn [Job.remaining Job.with_remaining orb].
      apply Z.eqb_neq in E0.
      destruct (1 <? Job.remaining j) eqn:E1.
      * apply Z.ltb_lt in E1. apply Z.ltb_lt. lia.
      * apply Z.ltb_ge in E1. apply Z.ltb_ge. lia.
    + destruct (0 <? _); cbn [Job.sets Job.with_remaining Job.with_sets];
        [rewrite Hnil; reflexivity | exact Hnil].
Qed.

Lemma normalize_without_sets_witness :
  let j := Job.with_sets [] job_pass_done in
  Job.remaining (snd (Job.normalize j)) = 1 /\ fst (Job.normalize j) = true.
Proof.
  cbv zeta.
  exact (normalize_without_sets (Job.with_sets [] job_pass_done) eq_refl).
Defined.

Lemma decrement_times_S save (n : nat) j :
  decrement_times save (S n) j
  = snd (Job.decrement save (decrement_times save n j)).
Proof. reflexivity. Qed.

(** X7. Calls of [Job.decrement] in a row count the passes down and stop
    at [0]: after [n] calls a job that had [remaining >= 0] has
    [max (remaining - n) 0] left, and once [remaining] is [0] every further
    call leaves the job as it is. *)
Theorem decrement_times_remaining save (n : nat) j :
  0 <= Job.remaining j ->
  Job.remaining (decrement_times save n j)
  = Z.max (Job.remaining j - Z.of_nat n) 0
  /\ (Job.remaining j <= Z.of_nat n ->
      decrement_times save (S n) j = decrement_times save n j).
Proof.
  intros Hr.
  assert (Hrem : forall m, Job.remaining (decrement_times save m j)
                           = Z.max (Job.remaining j - Z.of_nat m) 0).
  { induction m as [|m IH].
    - change (decrement_times save 0 j) with j. lia.
    - rewrite decrement_times_S, Job_decrement_job. cbv zeta.
      cbn [Job.remaining Job.with_remaining]. rewrite IH. lia. }
  split; [apply Hrem|].
  intros Hle. rewrite decrement_times_S.
  specialize (Hrem n). set (k := decrement_times save n j) in *.
  assert (Hk : Job.remaining k = 0) by lia.
  rewrite Job_decrement_job. cbv zeta. rewrite Hk.
  change (Z.max (0 - 1) 0) with 0. cbn [Z.ltb Z.compare].
  rewrite <- Hk. now destruct k.
Qed.

Lemma decrement_times_remaining_witness :
  Job.remaining (decrement_times true 5 job_mid_pass) = 0.
Proof.
  exact (proj1 (decrement_times_remaining true 5 job_mid_pass ltac:(cbn; lia))).
Defined.
End Passes.

Section Cascade.
Implicit Types (j : Job.t) (s : Set_.t) (save : bool) (i : nat).

(** The write [self.remaining = max(0, self.remaining - 1)]. *)
Local Abbreviation lower := (fun self : Set_.t =>
  Set_.with_remaining (Z.max 0 (Set_.remaining self - 1)) self).

Lemma Zsum_alter {A} (f : A -> Z) (g : A -> A) (l : list A) (i : nat) (x : A) :
  l !! i = Some x -> Zsum f (alter g i l) = Zsum f l - f x + f (g x).
Proof.
  revert i. induction l as [|y l IH]; intros [|i] Hi; try discriminate.
  - injection Hi as ->. unfold Zsum. cbn. lia.
  - cbn in Hi. specialize (IH i Hi). unfold Zsum in *. cbn. lia.
Qed.

Lemma Zsum_nonneg {A} (f : A -> Z) (l : list A) :
  Forall (fun x => 0 <= f x) l -> 0 <= Zsum f l.
Proof.
  induction 1 as [|x l Hx _ IH]; unfold Zsum in *; cbn; lia.
Qed.

Lemma Zsum_zero {A} (f : A -> Z) (l : list A) :
  Forall (fun x => 0 <= f x) l -> Forall (fun x => f x <= 0) l -> Zsum f l = 0.
Proof.
  induction 1 as [|x l Hx _ IH]; intros Hle; [reflexivity|].
  apply Forall_cons in Hle as [Hx' Hl]. specialize (IH Hl).
  unfold Zsum in *. cbn. lia.
Qed.

Lemma Zsum_update_remaining (ss : list Set_.t) :
  Zsum Set_.remaining (Job.update_remaining_to_count ss) = Zsum Set_.count ss
  /\ Zsum Set_.count (Job.update_remaining_to_count ss) = Zsum Set_.count ss.
Proof.
  induction ss as [|s ss [IH1 IH2]]; [split; reflexivity|].
  unfold Zsum, Job.update_remaining_to_count in *. cbn.
  rewrite IH1, IH2. split; reflexivity.
Qed.

Lemma has_incomplete_sets_true_iff j :
  Job.has_incomplete_sets j = true <->
  exists k s', Job.sets j !! k = Some s' /\ 0 < Set_.remaining s'.
Proof.
  unfold Job.has_incomplete_sets. rewrite existsb_exists. split.
  - intros (s' & Hin & Hpos). apply list_elem_of_In, list_elem_of_lookup_1 in Hin.
    destruct Hin as [k Hk]. exists k, s'. split; [exact Hk | now apply Z.ltb_lt].
  - intros (k & s' & Hk & Hpos). exists s'. split.
    + now apply list_elem_of_In, (list_elem_of_lookup_2 _ k).
    + now apply Z.ltb_lt.
Qed.

Lemma Set_decrement_unfold save j i :
  Set_decrement save j i =
  let k := Job.with_sets (alter lower i (Job.sets j)) j in
  if Job.has_incomplete_sets k then k else snd (Job.decrement save k).
Proof. unfold Set_decrement. cbv zeta. now destruct (Job.has_incomplete_sets _). Qed.

(** X8. [Set.decrement] inside a pass: when the set has more than one
    print left, or a sibling still has one, only that set changes and the
    job's own counter stays as it is. *)
Theorem Set_decrement_within_pass save j i s :
  Job.sets j !! i = Some s ->
  (1 < Set_.remaining s
   \/ exists k s', k <> i /\ Job.sets j !! k = Some s' /\ 0 < Set_.remaining s') ->
  Job.remaining (Set_decrement save j i) = Job.remaining j
  /\ Job.sets (Set_decrement save j i)
     = <[i := Set_.with_remaining (Z.max 0 (Set_.remaining s - 1)) s]> (Job.sets j).
Proof.
  intros Hi Hmore. rewrite Set_decrement_unfold. cbv zeta.
  assert (Hinc : Job.has_incomplete_sets
                   (Job.with_sets (alter lower i (Job.sets j)) j) = true).
  { apply has_incomplete_sets_true_iff. cbn [Job.sets Job.with_sets].
    destruct Hmore as [Hs|(k & s' & Hne & Hk & Hpos)].
    - exists i, (lower s). rewrite list_lookup_alter_eq, Hi. split; [reflexivity|].
      cbn [Set_.remaining Set_.with_remaining]. lia.
    - exists k, s'. split; [|exact Hpos].
      rewrite list_lookup_alter_ne by congruence. exact Hk. }
  rewrite Hinc. cbn [Job.remaining Job.sets Job.with_sets].
  split; [reflexivity|].
  apply list_eq. intros k. destruct (decide (i = k)) as [<-|Hne].
  - rewrite list_lookup_alter_eq, Hi, list_lookup_insert_eq; [reflexivity|].
    now apply lookup_lt_Some in Hi.
  - now rewrite list_lookup_alter_ne, list_lookup_insert_ne.
Qed.

Lemma Set_decrement_within_pass_witness :
  Job.remaining (Set_decrement true job_mid_pass 1) = 2.
Proof.
  refine (proj1 (Set_decrement_within_pass true job_mid_pass 1 _ eq_refl _)).
  right. exists 0%nat. eexists. split; [discriminate|]. split; [reflexivity|].
  cbn. lia.
Defined.

(** X9. [Set.decrement] with [save=True] of the last set of a pass (no
    sibling has a print left, this set has at most one) cascades into the
    job: the stored [remaining] drops by one, not below [0]; if a pass is
    still left every stored set starts again at its [count], and if not
    the job has no work. *)
Theorem Set_decrement_ends_pass j i s :
  Job.sets j !! i = Some s ->
  Set_.remaining s <= 1 ->
  (forall k s', k <> i -> Job.sets j !! k = Some s' -> Set_.remaining s' <= 0) ->
  let j' := Set_decrement true j i in
  Job.remaining j' = Z.max (Job.remaining j - 1) 0
  /\ (1 < Job.remaining j ->
      length (Job.sets j') = length (Job.sets j)
      /\ Forall (fun s' => Set_.remaining s' = Set_.count s') (Job.sets j'))
  /\ (Job.remaining j <= 1 -> Job.has_work j' = false).
Proof.
  intros Hi Hs Hothers j'. subst j'. rewrite Set_decrement_unfold. cbv zeta.
  set (k := Job.with_sets (alter lower i (Job.sets j)) j).
  assert (Hinc : Job.has_incomplete_sets k = false).
  { apply has_incomplete_sets_false_iff, Forall_lookup.
    intros n s' Hn. subst k. cbn [Job.sets Job.with_sets] in Hn.
    destruct (decide (i = n)) as [<-|Hne].
    - rewrite list_lookup_alter_eq, Hi in Hn. injection Hn as <-.
      cbn [Set_.remaining Set_.with_remaining]. lia.
    - rewrite list_lookup_alter_ne in Hn by exact Hne.
      apply (Hothers n s'); [congruence | exact Hn]. }
  rewrite Hinc, Job_decrement_job. cbv zeta.
  assert (Hk : Job.remaining k = Job.remaining j) by reflexivity.
  rewrite Hk. split; [|split].
  - reflexivity.
  - intros Hr. replace (0 <? Z.max (Job.remaining j - 1) 0) with true
      by (symmetry; apply Z.ltb_lt; lia).
    cbn [Job.sets Job.with_remaining Job.with_sets].
    unfold Job.update_remaining_to_count. split.
    + subst k. cbn [Job.sets Job.with_sets]. now rewrite length_fmap, length_alter.
    + apply Forall_fmap, Forall_true. intros s'. reflexivity.
  - intros Hr. replace (0 <? Z.max (Job.remaining j - 1) 0) with false
      by (symmetry; apply Z.ltb_ge; lia).
    unfold Job.has_work.
    replace (Job.has_incomplete_sets (Job.with_remaining _ k))
      with (Job.has_incomplete_sets k) by reflexivity.
    rewrite Hinc. cbn [Job.remaining Job.with_remaining orb].
    apply Z.ltb_ge. lia.
Qed.

Lemma Set_decrement_ends_pass_witness :
  let j' := Set_decrement true job_pass_done 0 in
  Job.remaining j' = 1
  /\ Forall (fun s' => Set_.remaining s' = Set_.count s') (Job.sets j').
Proof.
  cbv zeta.
  pose proof (Set_decrement_ends_pass job_pass_done 0 _ eq_refl) as H.
  destruct H as (H1 & H2 & _).
  - cbn. lia.
  - intros k s' Hne Hk. destruct k as [|k]; [contradiction|]. discriminate.
  - split; [exact H1|]. apply H2. cbn. lia.
Defined.

(** X10. Every [Set.decrement] with [save=True] of a set that still has a
    print left uses up exactly one of the prints the stored job stands
    for, whether or not it ends a pass. *)
Theorem Set_decrement_uses_one_print j i s :
  Job.bounded j = true ->
  Job.sets j !! i = Some s ->
  0 < Set_.remaining s ->
  prints_left (Set_decrement true j i) = prints_left j - 1.
Proof.
  intros Hb Hi Hpos. apply Job_bounded_spec in Hb as [Hr Hs].
  rewrite Set_decrement_unfold. cbv zeta.
  set (l' := alter lower i (Job.sets j)).
  assert (Hrem : Zsum Set_.remaining l' = Zsum Set_.remaining (Job.sets j) - 1).
  { subst l'. rewrite (Zsum_alter _ _ _ _ _ Hi).
    cbn [Set_.remaining Set_.with_remaining]. lia. }
  assert (Hcnt : Zsum Set_.count l' = Zsum Set_.count (Job.sets j)).
  { subst l'. rewrite (Zsum_alter _ _ _ _ _ Hi).
    cbn [Set_.count Set_.with_remaining]. lia. }
  assert (Hs' : Forall (fun s' => 0 <= Set_.remaining s' <= Set_.count s') l').
  { subst l'. apply Forall_alter; [exact Hs|].
    intros s' _ Hsb. cbv beta in Hsb.
    cbn [Set_.remaining Set_.count Set_.with_remaining]. lia. }
  destruct (Job.has_incomplete_sets (Job.with_sets l' j)) eqn:Hinc.
  - unfold prints_left. cbn [Job.sets Job.with_sets Job.remaining].
    rewrite Hrem, Hcnt. lia.
  - apply has_incomplete_sets_false_iff in Hinc. cbn [Job.sets Job.with_sets] in Hinc.
    assert (H0 : Zsum Set_.remaining l' = 0).
    { apply Zsum_zero; [|exact Hinc].
      eapply Forall_impl; [exact Hs'|]. intros s' Hsb. cbv beta in Hsb. lia. }
    rewrite Job_decrement_job. cbv zeta.
    cbn [Job.remaining Job.with_sets Job.sets].
    unfold prints_left.
    destruct (0 <? Z.max (Job.remaining j - 1) 0) eqn:Hnext;
      cbn [Job.remaining Job.with_remaining Job.sets Job.with_sets].
    + apply Z.ltb_lt in Hnext.
      destruct (Zsum_update_remaining l') as [-> ->]. rewrite Hcnt.
      replace (Z.max (Z.max (Job.remaining j - 1) 0 - 1) 0)
        with (Job.remaining j - 2) by lia.
      replace (Z.max (Job.remaining j - 1) 0) with (Job.remaining j - 1) by lia.
      lia.
    + apply Z.ltb_ge in Hnext. rewrite H0, Hcnt.
      replace (Z.max (Z.max (Job.remaining j - 1) 0 - 1) 0) with 0 by lia.
      replace (Z.max (Job.remaining j - 1) 0) with 0 by lia.
      lia.
Qed.

Lemma Set_decrement_uses_one_print_witness :
  prints_left (Set_decrement true job_mid_pass 0) = prints_left job_mid_pass - 1.
Proof.
  refine (Set_decrement_uses_one_print job_mid_pass 0 _ eq_refl eq_refl _).
  cbn. lia.
Defined.
End Cascade.

(** ** The frame of [action] *)

Section Frame.
Context {W : Type} `{!Collaborators W}.
Implicit Types (a : Action) (p : Printer) (path : option string)
  (materials : list (option string)) (s : Sys W).

Lemma action_unfold a p path materials s :
  action a p path materials s =
  match call_state (state (driver s)) a p (noted path materials s) with
  | (Returned nxt, s2) => let (b, s3) := conclude nxt s2 in (Returned b, s3)
  | (Raised e, s2) => (Raised e, s2)
  end.
Proof.
  unfold action, noted, conclude. unfold_monad.
  destruct s as [d w cs]. destruct path, materials; cbn;
    destruct (call_state _ a p _) as [[[n|]|e] s2]; cbn; try reflexivity;
    destruct (_update_ui (driver s2)); reflexivity.
Qed.

Section Keeping.
Variable R : Driver -> Driver -> Prop.
Hypothesis R_refl : forall d, R d d.
Hypothesis R_trans : forall d1 d2 d3, R d1 d2 -> R d2 d3 -> R d1 d3.
Hypothesis R_status :
  forall d msg, R d (set_status_field (Some msg) (set_update_ui true d)).

Lemma keeps_ret {A} (x : A) : keeps (W:=W) R (mret x).
Proof. intros s. apply R_refl. Qed.

Lemma keeps_raise {A} (e : Exn) : keeps (W:=W) (A:=A) R (raise e).
Proof. intros s. apply R_refl. Qed.

Lemma keeps_read {A} (f : Driver -> A) : keeps (W:=W) R (read f).
Proof. intros s. apply R_refl. Qed.

Lemma keeps_ask {A} (c : Call) (f : W -> A * W) : keeps R (ask c f).
Proof. intros s. unfold ask. destruct (f (world s)). apply R_refl. Qed.

Lemma keeps_tell (c : Call) (f : W -> W) : keeps R (tell c f).
Proof. intros s. apply R_refl. Qed.

Lemma keeps_write (f : Driver -> Driver) :
  (forall d, R d (f d)) -> keeps (W:=W) R (write f).
Proof. intros Hf s. apply Hf. Qed.

Lemma keeps_bind {A B} (m : M W A) (f : A -> M W B) :
  keeps R m -> (forall x, keeps R (f x)) -> keeps R (m ≫= f).
Proof.
  intros Hm Hf s. unfold mbind, M_bind. specialize (Hm s).
  destruct (m s) as [[x|e] s1]; cbn [snd] in *; [|exact Hm].
  eapply R_trans; [exact Hm | apply Hf].
Qed.

Lemma keeps_set_status (msg : string) : keeps (W:=W) R (_set_status msg).
Proof.
  intros s. unfold _set_status. unfold_monad. cbn.
  destruct (bool_decide _); cbn; [apply R_refl | apply R_status].
Qed.

Ltac keeps_step :=
  lazymatch goal with
  | |- keeps _ (mret _) => apply keeps_ret
  | |- keeps _ (raise _) => apply keeps_raise
  | |- keeps _ (read _) => apply keeps_read
  | |- keeps _ (ask _ _) => apply keeps_ask
  | |- keeps _ (tell _ _) => apply keeps_tell
  | |- keeps _ (_set_status _) => apply keeps_set_status
  | |- keeps _ (write (set_retries _)) =>
      apply keeps_write;
      match goal with
      | H : forall d r, R d (set_retries r d) |- _ => intros ?; apply H
      end
  | |- keeps _ (if ?b then _ else _) => destruct b
  | |- keeps _ (match ?x with _ => _ end) => destruct x
  | |- keeps _ (_ ≫= _) => apply keeps_bind; [|intros ?]
  end.

Lemma keeps_state_start_print a p : keeps R (_state_start_print a p).
Proof. unfold _state_start_print. repeat keeps_step. Qed.

Lemma keeps_enter_start_print a p : keeps R (_enter_start_print a p).
Proof.
  unfold _enter_start_print.
  apply keeps_bind; [apply keeps_state_start_print | intros nxt].
  repeat keeps_step.
Qed.

(** The state methods that leave the retry counter alone. *)
Lemma keeps_call_state_plain st a p :
  st <> Inactive -> st <> Failure -> st <> Success ->
  keeps R (call_state st a p).
Proof.
  intros HI HF HS. destruct st; try contradiction; cbn [call_state];
    [ unfold _state_unknown | apply keeps_state_start_print
    | unfold _state_printing | unfold _state_paused
    | unfold _state_spaghetti_recovery | unfold _state_start_clearing
    | unfold _state_clearing | unfold _state_start_finishing
    | unfold _state_finishing ];
    repeat first [ apply keeps_enter_start_print | keeps_step ].
Qed.

(** [_state_inactive] and [_state_success] write [0] to the retry counter
    and are plain from there on. *)
Lemma keeps_inactive_after_reset a p s :
  R (set_retries 0 (driver s)) (driver (snd (_state_inactive a p s))).
Proof.
  unfold _state_inactive.
  match goal with
  | |- context [write (set_retries 0) ≫= ?k] =>
      assert (Hrest : keeps R (k tt))
        by (cbv beta;
            repeat first [ apply keeps_enter_start_print | keeps_step ]);
      exact (Hrest (MkSys (set_retries 0 (driver s)) (world s) (calls s)))
  end.
Qed.

Lemma keeps_success_after_reset a p s :
  R (set_retries 0 (driver s)) (driver (snd (_state_success a p s))).
Proof.
  unfold _state_success. unfold_monad. cbn.
  destruct (get_set_or_acquire _) as [[item|] w1]; cbn; apply R_refl.
Qed.

Hypothesis R_retries : forall d r, R d (set_retries r d).

Lemma keeps_call_state st a p : keeps R (call_state st a p).
Proof.
  destruct st; try (apply keeps_call_state_plain; discriminate);
    cbn [call_state];
    [ unfold _state_inactive | unfold _state_failure | unfold _state_success ];
    repeat first [ apply keeps_enter_start_print | keeps_step ].
Qed.
End Keeping.
End Frame.

Section Returning.
Context {W : Type} `{!Collaborators W}.
Implicit Types (a : Action) (p : Printer) (path : option string)
  (materials : list (option string)) (s : Sys W).

Lemma returns_ret {A} (x : A) : returns (W:=W) (mret x).
Proof. intros s. now exists x. Qed.

Lemma returns_read {A} (f : Driver -> A) : returns (W:=W) (read f).
Proof. intros s. now eexists. Qed.

Lemma returns_write (f : Driver -> Driver) : returns (W:=W) (write f).
Proof. intros s. now eexists. Qed.

Lemma returns_ask {A} (c : Call) (f : W -> A * W) : returns (ask c f).
Proof. intros s. unfold ask. destruct (f (world s)). now eexists. Qed.

Lemma returns_tell (c : Call) (f : W -> W) : returns (tell c f).
Proof. intros s. now eexists. Qed.

Lemma returns_bind {A B} (m : M W A) (f : A -> M W B) :
  returns m -> (forall x, returns (f x)) -> returns (m ≫= f).
Proof.
  intros Hm Hf s. unfold mbind, M_bind. destruct (Hm s) as [x Hx].
  destruct (m s) as [o s1]. cbn [fst] in Hx. subst o. apply Hf.
Qed.

Lemma returns_set_status (msg : string) : returns (W:=W) (_set_status msg).
Proof.
  intros s. unfold _set_status. unfold_monad. cbn.
  destruct (bool_decide _); now eexists.
Qed.

Ltac returns_step :=
  lazymatch goal with
  | |- returns (mret _) => apply returns_ret
  | |- returns (read _) => apply returns_read
  | |- returns (write _) => apply returns_write
  | |- returns (ask _ _) => apply returns_ask
  | |- returns (tell _ _) => apply returns_tell
  | |- returns (_set_status _) => apply returns_set_status
  | |- returns (if ?b then _ else _) => destruct b
  | |- returns (match ?x with _ => _ end) => destruct x
  | |- returns (_ ≫= _) => apply returns_bind; [|intros ?]
  end.

Lemma returns_state_start_print a p : returns (_state_start_print a p).
Proof. unfold _state_start_print. repeat returns_step. Qed.

Lemma returns_enter_start_print a p : returns (_enter_start_print a p).
Proof.
  unfold _enter_start_print.
  apply returns_bind; [apply returns_state_start_print | intros nxt].
  repeat returns_step.
Qed.

Lemma returns_call_state st a p :
  st <> Printing -> returns (call_state st a p).
Proof.
  intros HP. destruct st; try contradiction; cbn [call_state];
    [ unfold _state_unknown | unfold _state_inactive
    | apply returns_state_start_print | unfold _state_paused
    | unfold _state_spaghetti_recovery | unfold _state_failure
    | unfold _state_success | unfold _state_start_clearing
    | unfold _state_clearing | unfold _state_start_finishing
    | unfold _state_finishing ];
    repeat first [ apply returns_enter_start_print | returns_step ].
Qed.

(** What [_state_printing] returns or raises, event by event. *)
Lemma state_printing_outcome a p s :
  fst (_state_printing a p s) =
  match a with
  | DEACTIVATE => Returned (Some Inactive)
  | FAILURE => Returned (Some Failure)
  | SPAGHETTI =>
      match fst (get_run (world s)) with
      | None => Raised (AttributeError "start")
      | Some run =>
          let w1 := snd (get_run (world s)) in
          if retry_on_pause (driver s)
             && Qltb (fst (time_time w1) - Run.start run)%Q
                     (retry_threshold_seconds (driver s))
          then Returned (Some SpaghettiRecovery)
          else Returned (Some Paused)
      end
  | SUCCESS =>
      match fst (get_set (world s)) with
      | None => Raised (AttributeError "path")
      | Some item =>
          if bool_decide (Some (Set_.path item) = _cur_path (driver s))
          then Returned (Some Success)
          else Returned (Some StartClearing)
      end
  | ACTIVATE | TICK =>
      match p with
      | BUSY => Returned None
      | PAUSED => Returned (Some Paused)
      | IDLE => Returned (Some Success)
      end
  end.
Proof.
  destruct s as [d w cs]. unfold _state_printing. unfold_monad.
  destruct a; cbn; try reflexivity.
  - destruct p; cbn; try reflexivity.
    destruct (get_set w) as [[item|] w1]; cbn; [|reflexivity].
    now destruct (bool_decide _).
  - destruct (get_set w) as [[item|] w1]; cbn; [|reflexivity].
    now destruct (bool_decide _).
  - destruct (get_run w) as [[run|] w1]; cbn;
      destruct (time_time w1) as [now w2]; cbn; [|reflexivity].
    destruct (retry_on_pause d && _); cbn; [reflexivity|].
    now destruct (bool_decide _).
  - destruct p; cbn; try reflexivity.
    destruct (get_set w) as [[item|] w1]; cbn; [|reflexivity].
    now destruct (bool_decide _).
Qed.

Lemma action_outcome a p path materials s :
  fst (action a p path materials s) =
  match fst (call_state (state (driver s)) a p (noted path materials s)) with
  | Returned nxt =>
      Returned (fst (conclude nxt
                       (snd (call_state (state (driver s)) a p
                                        (noted path materials s)))))
  | Raised e => Raised e
  end.
Proof.
  rewrite action_unfold.
  destruct (call_state _ a p _) as [[nxt|e] s2]; cbn [fst snd]; [|reflexivity].
  now destruct (conclude nxt s2).
Qed.

(** X11. [action] raises in one state only: in [Printing], on SPAGHETTI
    when the queue has no open run (reading [start] from [None]) and on
    SUCCESS when no set is selected (reading [path] from [None]). Every
    other call returns. *)
Theorem action_raises_iff a p path materials s :
  ((exists e, fst (action a p path materials s) = Raised e) <->
   state (driver s) = Printing
   /\ ((a = SPAGHETTI /\ fst (get_run (world s)) = None)
       \/ (a = SUCCESS /\ fst (get_set (world s)) = None)))
  /\ (state (driver s) = Printing -> a = SPAGHETTI ->
      fst (get_run (world s)) = None ->
      fst (action a p path materials s) = Raised (AttributeError "start")).
Proof.
  rewrite action_outcome.
  assert (Hw : world (noted path materials s) = world s) by reflexivity.
  destruct (state (driver s)) eqn:Hst;
    try (match goal with
         | |- context [call_state ?st a p _] =>
             assert (Hne : st <> Printing) by discriminate;
             destruct (returns_call_state st a p Hne (noted path materials s))
               as [nxt Hn];
             rewrite Hn
         end;
         split; [split; [intros [e He]; discriminate He
                        |intros [Hp _]; discriminate Hp]
                |intros Hp; discriminate Hp]).
  cbn [call_state]. rewrite state_printing_outcome, Hw.
  split.
  - split.
    + intros [e He]. split; [reflexivity|].
      destruct a; try discriminate He.
      * destruct p; discriminate He.
      * right. split; [reflexivity|].
        destruct (fst (get_set (world s))); [|reflexivity].
        destruct (bool_decide _); discriminate He.
      * left. split; [reflexivity|].
        destruct (fst (get_run (world s))); [|reflexivity].
        cbv zeta in He. destruct (_ && _); discriminate He.
      * destruct p; discriminate He.
    + intros [_ [[-> Hrun]|[-> Hset]]].
      * rewrite Hrun. now eexists.
      * rewrite Hset. now eexists.
  - intros _ -> Hrun. now rewrite Hrun.
Qed.
End Returning.

Section Framing.
Context {W : Type} `{!Collaborators W}.
Implicit Types (a : Action) (p : Printer) (path : option string)
  (materials : list (option string)) (s : Sys W).

Lemma same_settings_refl d : same_settings d d.
Proof. repeat split. Qed.

Lemma same_settings_trans d1 d2 d3 :
  same_settings d1 d2 -> same_settings d2 d3 -> same_settings d1 d3.
Proof. unfold same_settings. intuition congruence. Qed.

Lemma flagged_refl d : flagged d d.
Proof. split; [now left | tauto]. Qed.

Lemma flagged_trans d1 d2 d3 : flagged d1 d2 -> flagged d2 d3 -> flagged d1 d3.
Proof.
  intros [[H1|H1] M1] [[H2|H2] M2]; split; try tauto.
  left. congruence.
Qed.

Lemma conclude_driver (nxt : option State) s :
  let d := driver s in
  let d' := driver (snd (conclude nxt s)) in
  state d' = match nxt with Some n => n | None => state d end
  /\ _update_ui d' = false
  /\ status d' = status d /\ retries d' = retries d
  /\ retry_on_pause d' = retry_on_pause d
  /\ max_retries d' = max_retries d
  /\ retry_threshold_seconds d' = retry_threshold_seconds d
  /\ first_print d' = first_print d
  /\ _cur_path d' = _cur_path d
  /\ _cur_materials d' = _cur_materials d
  /\ fst (conclude nxt s)
     = match nxt with Some _ => true | None => _update_ui d end.
Proof.
  unfold conclude. destruct nxt as [n|]; cbn.
  - repeat split.
  - destruct (_update_ui (driver s)) eqn:E; cbn; repeat split; assumption.
Qed.

(** X12. Whatever the state and the event, and whether the call returns
    or raises, [action] leaves the retry settings and [first_print] as they
    were, and keeps the last path and materials it was given: [_cur_path]
    changes only to a [path] that is not [None], [_cur_materials] only to a
    list of [materials] that is not empty. *)
Theorem action_keeps_settings a p path materials s :
  let d := driver s in
  let d' := driver (snd (action a p path materials s)) in
  retry_on_pause d' = retry_on_pause d
  /\ max_retries d' = max_retries d
  /\ retry_threshold_seconds d' = retry_threshold_seconds d
  /\ first_print d' = first_print d
  /\ _cur_path d' = match path with Some _ => path | None => _cur_path d end
  /\ _cur_materials d'
     = if (0 <? length materials)%nat then materials else _cur_materials d.
Proof.
  cbv zeta. rewrite action_unfold.
  pose proof (keeps_call_state same_settings same_settings_refl
                same_settings_trans ltac:(intros; repeat split)
                ltac:(intros; repeat split)
                (state (driver s)) a p (noted path materials s)) as Hk.
  assert (Hn : same_settings
                 (driver (MkSys
                    {| status := status (driver s); state := state (driver s);
                       retries := retries (driver s);
                       retry_on_pause := retry_on_pause (driver s);
                       max_retries := max_retries (driver s);
                       retry_threshold_seconds := retry_threshold_seconds (driver s);
                       first_print := first_print (driver s);
                       _update_ui := _update_ui (driver s);
                       _cur_path := match path with
                                    | Some _ => path
                                    | None => _cur_path (driver s)
                                    end;
                       _cur_materials :=
                         if (0 <? length materials)%nat then materials
                         else _cur_materials (driver s) |}
                    (world s) (calls s)))
                 (driver (noted path materials s))).
  { unfold noted. destruct s as [[] w cs], path, materials; repeat split. }
  destruct (call_state _ a p _) as [[nxt|e] s2]; cbn [snd] in Hk.
  - pose proof (conclude_driver nxt s2) as Hc. cbv zeta in Hc.
    destruct (conclude nxt s2) as [b s3]. cbn [snd] in *.
    unfold same_settings in *. cbn [driver state retry_on_pause max_retries
      retry_threshold_seconds first_print _cur_path _cur_materials] in Hn.
    intuition congruence.
  - cbn [snd]. unfold same_settings in *. cbn [driver state retry_on_pause
      max_retries retry_threshold_seconds first_print _cur_path
      _cur_materials] in Hn.
    intuition congruence.
Qed.

(** X13. The flag that [action] returns is sound: a call that returns
    leaves [_update_ui] lowered; if it returns [False], neither the state
    nor the status text has changed (and the flag was not pending); so a
    call that changes the state, or the status while no flag was pending,
    returns [True]. *)
Theorem action_flag_sound a p path materials s (b : bool) :
  fst (action a p path materials s) = Returned b ->
  let d := driver s in
  let d' := driver (snd (action a p path materials s)) in
  _update_ui d' = false
  /\ (b = false ->
      state d' = state d /\ status d' = status d /\ _update_ui d = false)
  /\ (state d' <> state d -> b = true).
Proof.
  intros Hret. cbv zeta. rewrite action_unfold in *.
  pose proof (keeps_call_state same_settings same_settings_refl
                same_settings_trans ltac:(intros; repeat split)
                ltac:(intros; repeat split)
                (state (driver s)) a p (noted path materials s)) as Hk.
  pose proof (keeps_call_state flagged flagged_refl flagged_trans
                ltac:(intros; split; [now right | reflexivity])
                ltac:(intros; split; [now left | intros Hu; exact Hu])
                (state (driver s)) a p (noted path materials s)) as Hf.
  assert (Hn : state (driver (noted path materials s)) = state (driver s)
               /\ status (driver (noted path materials s)) = status (driver s)
               /\ _update_ui (driver (noted path materials s))
                  = _update_ui (driver s)).
  { unfold noted. destruct s as [[] w cs], path, materials; repeat split. }
  destruct (call_state _ a p _) as [[nxt|e] s2]; cbn [snd] in Hk, Hf;
    [|discriminate Hret].
  pose proof (conclude_driver nxt s2) as Hc. cbv zeta in Hc.
  destruct (conclude nxt s2) as [b' s3]. cbn [fst snd] in *.
  injection Hret as ->.
  destruct Hk as (Hst & _). destruct Hf as [Hstatus Hmono].
  destruct Hn as (Hn1 & Hn2 & Hn3).
  destruct Hc as (Hc1 & Hc2 & Hc3 & _ & _ & _ & _ & _ & _ & _ & Hb).
  assert (Hfalse : b = false ->
            state (driver s3) = state (driver s)
            /\ status (driver s3) = status (driver s)
            /\ _update_ui (driver s) = false).
  { intros ->. destruct nxt; [discriminate Hb|].
    symmetry in Hb. rewrite Hb in Hstatus.
    destruct Hstatus as [Hs|Hs]; [|discriminate Hs].
    split; [congruence|]. split; [congruence|].
    destruct (_update_ui (driver s)) eqn:E; [|reflexivity].
    rewrite Hn3 in Hmono. specialize (Hmono eq_refl). congruence. }
  split; [exact Hc2|]. split; [exact Hfalse|].
  intros Hchg. destruct b; [reflexivity|].
  destruct (Hfalse eq_refl) as [Hsame _]. contradiction.
Qed.
End Framing.

Section Range.
Context {W : Type} `{!Collaborators W}.
Implicit Types (a : Action) (p : Printer) (path : option string)
  (materials : list (option string)) (s : Sys W).

(** X14. The retry counter stays in range: if [retries] is [0] or
    strictly between [0] and [max_retries] before a call of [action], it
    is so after it, in every state and whether the call returns or
    raises. *)
Theorem action_keeps_retries_in_range a p path materials s :
  retries_in_range (driver s) ->
  retries_in_range (driver (snd (action a p path materials s))).
Proof.
  intros Hin. rewrite action_unfold.
  set (R := fun d d' : Driver =>
              retries d' = retries d /\ max_retries d' = max_retries d).
  assert (R_refl : forall d, R d d) by (intros; split; reflexivity).
  assert (R_trans : forall d1 d2 d3, R d1 d2 -> R d2 d3 -> R d1 d3)
    by (unfold R; intros; intuition congruence).
  assert (R_status : forall d msg,
             R d (set_status_field (Some msg) (set_update_ui true d)))
    by (intros; split; reflexivity).
  assert (Hn : R (driver s) (driver (noted path materials s))).
  { unfold noted. destruct s as [[] w cs], path, materials; split; reflexivity. }
  assert (Hs2 : retries_in_range
                  (driver (snd (call_state (state (driver s)) a p
                                           (noted path materials s))))).
  { set (s0 := noted path materials s) in *.
    assert (Hin0 : retries_in_range (driver s0))
      by (destruct Hn as [E1 E2]; unfold retries_in_range; rewrite E1, E2;
          exact Hin).
    clearbody s0. clear Hn Hin.
    destruct (state (driver s));
      try (match goal with
           | |- context [call_state ?st a p s0] =>
               destruct (keeps_call_state_plain R R_refl R_trans R_status
                           st a p ltac:(discriminate) ltac:(discriminate)
                           ltac:(discriminate) s0) as [E1 E2];
               unfold retries_in_range; rewrite E1, E2; exact Hin0
           end).
    - destruct (keeps_inactive_after_reset R R_refl R_trans R_status a p s0)
        as [E1 _].
      left. cbn [call_state]. rewrite E1. reflexivity.
    - cbn [call_state]. destruct s0 as [d w cs].
      unfold retries_in_range in *. cbn [driver] in Hin0.
      unfold _state_failure. unfold_monad.
      destruct p; cbn; try exact Hin0.
      destruct (retries d + 1 <? max_retries d) eqn:E; cbn; [|exact Hin0].
      apply Z.ltb_lt in E. right. lia.
    - destruct (keeps_success_after_reset R R_refl a p s0)
        as [E1 _].
      left. cbn [call_state]. rewrite E1. reflexivity. }
  destruct (call_state _ a p _) as [[nxt|e] s2]; cbn [snd] in *; [|exact Hs2].
  pose proof (conclude_driver nxt s2) as Hc. cbv zeta in Hc.
  destruct (conclude nxt s2) as [b s3]. cbn [snd] in *.
  destruct Hc as (_ & _ & _ & E1 & _ & E2 & _).
  unfold retries_in_range in *. rewrite E1, E2. exact Hs2.
Qed.
End Range.

Lemma action_keeps_retries_in_range_witness :
  retries_in_range
    (driver (snd (action TICK IDLE None []
                         (driver_in Failure true 3 3600 (offering set_plain 0))))).
Proof.
  apply action_keeps_retries_in_range. left. reflexivity.
Defined.

Lemma action_flag_sound_witness :
  let s := Scripted.fresh (offering set_plain 0) in
  state (driver (snd (action TICK BUSY None [] s))) = Unknown
  /\ status (driver (snd (action TICK BUSY None [] s))) = Some "Initializing".
Proof.
  cbv zeta.
  destruct (action_flag_sound TICK BUSY None []
              (Scripted.fresh (offering set_plain 0)) false eq_refl)
    as (_ & H & _).
  destruct (H eq_refl) as (H1 & H2 & _). split; assumption.
Defined.

Section States.
Context {W : Type} `{!Collaborators W}.
Implicit Types (a : Action) (p : Printer) (path : option string)
  (materials : list (option string)) (s : Sys W).

(** X15. In [Printing], on a call that does not raise: DEACTIVATE leads
    to [Inactive] and FAILURE to [Failure] without any call on the
    collaborators; SUCCESS with a set selected leads to [Success] when the
    set's path is the path tracked (the one just given, else the last one
    seen) and to [StartClearing] when it is not; with no such event the
    printer status decides: IDLE is taken for success, PAUSED leads to
    [Paused], BUSY stays in [Printing]. *)
Theorem printing_transitions a p path materials s :
  state (driver s) = Printing ->
  let s' := snd (action a p path materials s) in
  let tracked := match path with
                 | Some _ => path
                 | None => _cur_path (driver s)
                 end in
  (a = DEACTIVATE -> state (driver s') = Inactive /\ calls s' = calls s)
  /\ (a = FAILURE -> state (driver s') = Failure /\ calls s' = calls s)
  /\ (a = SUCCESS -> forall item w1, get_set (world s) = (Some item, w1) ->
      (Some (Set_.path item) = tracked -> state (driver s') = Success)
      /\ (Some (Set_.path item) <> tracked -> state (driver s') = StartClearing)
      /\ calls s' = calls s ++ [q_get_set])
  /\ (a = ACTIVATE \/ a = TICK ->
      state (driver s') = match p with
                          | IDLE => Success
                          | PAUSED => Paused
                          | BUSY => Printing
                          end
      /\ runner_calls (calls s') = runner_calls (calls s)).
Proof.
  intros Hst. open_sys s Hst.
  unfold action, call_state. unfold_handlers. unfold_monad.
  split; [|split; [|split]].
  - intros ->. destruct path, materials; cbn; split; reflexivity.
  - intros ->. destruct path, materials; cbn; split; reflexivity.
  - intros -> item w1 Hget.
    destruct path, materials; cbn; rewrite Hget; cbn;
      case_bool_decide; cbn; (split; [|split]);
      try reflexivity; try congruence; intros; congruence.
  - intros [-> | ->]; destruct p, path, materials; cbn;
      try (split; reflexivity);
      destruct (get_set w0) as [[item|] w1]; cbn; split_status;
      (split; [reflexivity|]); unfold runner_calls;
      rewrite List.filter_app; cbn; now rewrite app_nil_r.
Qed.

(** X16. [Success] does its work whatever the event and the printer
    status: it closes the run with ["success"], then resets the retry
    counter and asks the queue for a set; with a set it goes to
    [StartClearing], without one to [StartFinishing]. *)
Theorem success_step a p path materials s (item : option Set_.t) (w1 : W) :
  state (driver s) = Success ->
  get_set_or_acquire (end_run "success" (world s)) = (item, w1) ->
  let r := action a p path materials s in
  fst r = Returned true
  /\ state (driver (snd r))
     = match item with Some _ => StartClearing | None => StartFinishing end
  /\ retries (driver (snd r)) = 0
  /\ calls (snd r) = calls s ++ [q_end_run "success"; q_get_set_or_acquire]
  /\ world (snd r) = w1.
Proof.
  intros Hst Hget. open_sys s Hst.
  unfold action, call_state. unfold_handlers. unfold_monad.
  destruct path, materials; cbn; rewrite Hget; cbn; destruct item; cbn;
    rewrite <- app_assoc; repeat split; reflexivity.
Qed.

(** X17. [StartPrint] on an event other than DEACTIVATE: with the printer
    not idle it waits without calling the queue or the runner; with the
    printer idle and nothing on offer it gives up and goes to [Inactive]
    after the one call of [get_set_or_acquire]. *)
Theorem start_print_waits_or_gives_up a p path materials s :
  state (driver s) = StartPrint -> a <> DEACTIVATE ->
  let s' := snd (action a p path materials s) in
  (p <> IDLE ->
     state (driver s') = StartPrint /\ calls s' = calls s
     /\ world s' = world s
     /\ status (driver s') = Some "Waiting for printer to be ready")
  /\ (p = IDLE -> forall w1, get_set_or_acquire (world s) = (None, w1) ->
     state (driver s') = Inactive
     /\ calls s' = calls s ++ [q_get_set_or_acquire]
     /\ status (driver s') = Some "No work to do; going inactive").
Proof.
  intros Hst Ha. open_sys s Hst.
  unfold action, call_state, _state_start_print. unfold_monad.
  split.
  - intros Hp. destruct p; [contradiction| |];
      destruct a; try contradiction; destruct path, materials; cbn;
      split_status; repeat split; congruence.
  - intros -> w1 Hget.
    destruct a; try contradiction; destruct path, materials; cbn;
      rewrite Hget; cbn; split_status; repeat split; congruence.
Qed.

(** X18. When the runner refuses to start the print, [StartPrint] has
    already opened the run: the call ends in [StartPrint] again with
    [begin_run] and [start_print] both made, so each further attempt opens
    a run of its own. *)
Theorem start_print_refused_keeps_run_open a path materials s item w1 w2 :
  state (driver s) = StartPrint -> a <> DEACTIVATE ->
  get_set_or_acquire (world s) = (Some item, w1) ->
  (forall (i : nat) (im : string),
      Set_.materials item !! i = Some im ->
      (if (0 <? length materials)%nat then materials
       else _cur_materials (driver s)) !! i = Some (Some im)) ->
  start_print item (begin_run w1) = (false, w2) ->
  let s' := snd (action a IDLE path materials s) in
  state (driver s') = StartPrint
  /\ calls s' = calls s ++ [q_get_set_or_acquire; q_begin_run;
                            runner_start_print item]
  /\ world s' = w2.
Proof.
  intros Hst Ha Hget Hmat Hstart.
  assert (Hmis : first_mismatch 0 (Some <$> Set_.materials item)
                   (if (0 <? length materials)%nat then materials
                    else _cur_materials (driver s)) = None).
  { apply first_mismatch_None. intros i im Hi.
    rewrite list_lookup_fmap in Hi.
    destruct (Set_.materials item !! i) as [im'|] eqn:Him; [|discriminate].
    cbn in Hi. injection Hi as ->. now apply Hmat. }
  clear Hmat. open_sys s Hst.
  unfold action, call_state, _state_start_print. unfold_monad.
  destruct a; try contradiction; destruct path, materials; cbn in *;
    rewrite Hget; cbn; rewrite Hmis; cbn; rewrite Hstart; cbn;
    split_status; rewrite <- !app_assoc; repeat split; reflexivity.
Qed.

Lemma first_mismatch_at (cur_materials : list (option string)) :
  forall (materials : list (option string)) (k i : nat) (im : string),
    materials !! i = Some (Some im) ->
    cur_materials !! (k + i)%nat <> Some (Some im) ->
    (forall (n : nat) (x : string), (n < i)%nat ->
        materials !! n = Some (Some x) ->
        cur_materials !! (k + n)%nat = Some (Some x)) ->
    first_mismatch k materials cur_materials
    = Some ((k + i)%nat, im,
            match cur_materials !! (k + i)%nat with
            | Some c => c
            | None => None
            end).
Proof.
  intros materials k i. revert materials k.
  induction i as [|i IH]; intros [|m rest] k im Hi Hne Hbefore;
    try discriminate.
  - cbn in Hi. injection Hi as ->. cbn [first_mismatch].
    rewrite Nat.add_0_r in *.
    case_bool_decide as Heq; [|reflexivity].
    exfalso. apply Hne.
    destruct (cur_materials !! k) as [c|]; [now rewrite Heq | discriminate].
  - cbn in Hi. cbn [first_mismatch].
    assert (Hrec : first_mismatch (S k) rest cur_materials
                   = Some ((k + S i)%nat, im,
                           match cur_materials !! (k + S i)%nat with
                           | Some c => c
                           | None => None
                           end)).
    { rewrite <- Nat.add_succ_comm. apply IH; [exact Hi | |].
      - now rewrite Nat.add_succ_comm.
      - intros n x Hn Hx. rewrite Nat.add_succ_comm.
        apply Hbefore; [lia | exact Hx]. }
    destruct m as [x|]; [|exact Hrec].
    specialize (Hbefore 0%nat x ltac:(lia) eq_refl).
    rewrite Nat.add_0_r in Hbefore. rewrite Hbefore.
    case_bool_decide; [exact Hrec | congruence].
Qed.

(** X19. The material wait names the first tool that is wrong. In
    [StartPrint] with the printer idle and a set on offer, if entry [i] of
    the set's materials is not the spool loaded in tool [i] while every
    entry before it is, the call stays in [StartPrint], reports entry and
    tool [i] with what is loaded there, and makes no call beyond
    [get_set_or_acquire]: no run is opened and no print started. *)
Theorem start_print_waits_for_first_wrong_spool
    a path materials s item w1 (i : nat) (im : string) :
  state (driver s) = StartPrint -> a <> DEACTIVATE ->
  get_set_or_acquire (world s) = (Some item, w1) ->
  let loaded := if (0 <? length materials)%nat then materials
                else _cur_materials (driver s) in
  Set_.materials item !! i = Some im ->
  loaded !! i <> Some (Some im) ->
  (forall (n : nat) (x : string), (n < i)%nat ->
      Set_.materials item !! n = Some x -> loaded !! n = Some (Some x)) ->
  let s' := snd (action a IDLE path materials s) in
  state (driver s') = StartPrint
  /\ status (driver s')
     = Some ("Waiting for spool " +:+ im +:+ " in tool " +:+ pretty i
             +:+ " (currently: "
             +:+ str_or_None (match loaded !! i with
                              | Some c => c
                              | None => None
                              end) +:+ ")")
  /\ calls s' = calls s ++ [q_get_set_or_acquire]
  /\ world s' = w1.
Proof.
  intros Hst Ha Hget loaded Hi Hne Hbefore.
  assert (Hmis : first_mismatch 0 (Some <$> Set_.materials item) loaded
                 = Some (i, im, match loaded !! i with
                                | Some c => c
                                | None => None
                                end)).
  { apply (first_mismatch_at loaded (Some <$> Set_.materials item) 0 i im).
    - now rewrite list_lookup_fmap, Hi.
    - exact Hne.
    - intros n x Hn Hx. rewrite list_lookup_fmap in Hx.
      destruct (Set_.materials item !! n) as [x'|] eqn:E; [|discriminate].
      cbn in Hx. injection Hx as ->. now apply Hbefore. }
  clear Hi Hne Hbefore. subst loaded. open_sys s Hst.
  unfold action, call_state, _state_start_print. unfold_monad.
  destruct a; try contradiction; destruct path, materials; cbn in *;
    rewrite Hget; cbn; rewrite Hmis; cbn;
    split_status; repeat split; congruence.
Qed.
End States.

Section Idling.
Context {W : Type} `{!Collaborators W}.
Implicit Types (a : Action) (p : Printer) (path : option string)
  (materials : list (option string)) (s : Sys W).

Lemma unknown_step a p path materials s :
  state (driver s) = Unknown -> a <> DEACTIVATE ->
  exists b s',
    action a p path materials s = (Returned b, s')
    /\ state (driver s') = Unknown /\ status (driver s') = status (driver s)
    /\ retries (driver s') = retries (driver s)
    /\ calls s' = calls s /\ world s' = world s.
Proof.
  intros Hst Ha. open_sys s Hst.
  unfold action, call_state. unfold_handlers. unfold_monad.
  destruct a; try contradiction; destruct path, materials; cbn;
    split_status; do 2 eexists; repeat split; reflexivity.
Qed.

(** X20. A driver in [Unknown], the state it is constructed in, is deaf
    to everything but DEACTIVATE: a sequence of calls with no DEACTIVATE
    among the events all return, leave it in [Unknown] with its status
    text and retry counter, and reach neither the queue nor the runner;
    the first DEACTIVATE takes it to [Inactive]. *)
Theorem unknown_hears_only_deactivate (inputs : list Input) s :
  state (driver s) = Unknown ->
  Forall (fun i => event_of i <> DEACTIVATE) inputs ->
  let r := actions inputs s in
  (exists bs, fst r = Returned bs)
  /\ state (driver (snd r)) = Unknown
  /\ status (driver (snd r)) = status (driver s)
  /\ calls (snd r) = calls s /\ world (snd r) = world s
  /\ forall p path materials,
       state (driver (snd (action DEACTIVATE p path materials (snd r))))
       = Inactive.
Proof.
  intros Hst Hall. revert s Hst.
  induction Hall as [|[[[a p] path] materials] rest Ha _ IH]; intros s Hst.
  - cbn [actions fst snd]. split; [now eexists|].
    split; [exact Hst|]. do 3 (split; [reflexivity|]).
    intros p path materials. open_sys s Hst.
    unfold action, call_state. unfold_handlers. unfold_monad.
    destruct path, materials; reflexivity.
  - cbn [actions]. unfold event_of in Ha. cbn [fst] in Ha.
    destruct (unknown_step a p path materials s Hst Ha)
      as (b & s' & Hact & Hst' & Hstatus & _ & Hcalls & Hworld).
    rewrite Hact. specialize (IH s' Hst'). cbv zeta in IH.
    destruct IH as ([bs Hbs] & H1 & H2 & H3 & H4 & H5).
    destruct (actions rest s') as [o s'']. cbn [fst snd] in *. subst o.
    cbn [fst snd]. repeat split; try congruence. now eexists.
Qed.

(** X21. [Inactive] sets the retry counter to [0] on every call. Only
    ACTIVATE leaves it: with the printer not idle the driver adopts the
    print under way and goes to [Printing] without a call on the queue or
    the runner (no run is opened for that print); every other event leaves
    it [Inactive], again without a call. *)
Theorem inactive_step a p path materials s :
  state (driver s) = Inactive ->
  let s' := snd (action a p path materials s) in
  retries (driver s') = 0
  /\ (a <> ACTIVATE ->
      state (driver s') = Inactive /\ calls s' = calls s /\ world s' = world s)
  /\ (a = ACTIVATE -> p <> IDLE ->
      state (driver s') = Printing /\ calls s' = calls s /\ world s' = world s).
Proof.
  intros Hst. cbv zeta.
  split; [|split].
  - pose proof (action_unfold a p path materials s) as Hact.
    rewrite Hst in Hact. cbn [call_state] in Hact.
    pose proof (keeps_inactive_after_reset
                  (fun d d' => retries d' = retries d)
                  ltac:(reflexivity) ltac:(congruence) ltac:(reflexivity)
                  a p (noted path materials s)) as Hk.
    cbv beta in Hk. rewrite Hact.
    destruct (_state_inactive a p _) as [[nxt|e] s2]; cbn [snd] in *;
      [|exact Hk].
    pose proof (conclude_driver nxt s2) as Hc. cbv zeta in Hc.
    destruct (conclude nxt s2) as [b s3]. cbn [snd] in *.
    destruct Hc as (_ & _ & _ & E & _). now rewrite E.
  - intros Ha. open_sys s Hst.
    unfold action, call_state. unfold_handlers. unfold_monad.
    destruct a; try contradiction; destruct p, path, materials; cbn;
      split_status; repeat split; reflexivity.
  - intros -> Hp. open_sys s Hst.
    unfold action, call_state. unfold_handlers. unfold_monad.
    destruct p; try contradiction; destruct path, materials; cbn;
      repeat split; reflexivity.
Qed.

(** X22. While the bed is cleared: FAILURE sends [Clearing] straight to
    [Inactive], past [Failure], so the retry rule is not consulted and
    [end_run] is not called; and with neither SUCCESS nor an idle printer
    the driver stays in [Clearing]. In both cases no collaborator is
    called. *)
Theorem clearing_step a p path materials s :
  state (driver s) = Clearing ->
  let s' := snd (action a p path materials s) in
  (a = FAILURE ->
     state (driver s') = Inactive /\ calls s' = calls s
     /\ retries (driver s') = retries (driver s))
  /\ (a = ACTIVATE \/ a = SPAGHETTI \/ a = TICK -> p <> IDLE ->
     state (driver s') = Clearing /\ calls s' = calls s).
Proof.
  intros Hst. open_sys s Hst.
  unfold action, call_state. unfold_handlers. unfold_monad.
  split.
  - intros ->. destruct p, path, materials; cbn; split_status;
      repeat split; reflexivity.
  - intros [->|[->| ->]] Hp; destruct p; try contradiction;
      destruct path, materials; cbn; split_status; repeat split; reflexivity.
Qed.

(** X23. [StartClearing] and [StartFinishing] hand their script to the
    runner exactly when the printer is seen idle: on an event other than
    DEACTIVATE, an idle printer gets the one call ([clear_bed], resp.
    [run_finish_script]) and the driver moves on to [Clearing], resp.
    [Finishing]; a printer that is not idle gets no call and the driver
    waits where it is. *)
Theorem scripts_start_when_idle a p path materials s :
  a <> DEACTIVATE ->
  let s' := snd (action a p path materials s) in
  (state (driver s) = StartClearing ->
     (p = IDLE -> state (driver s') = Clearing
                  /\ calls s' = calls s ++ [runner_clear_bed]
                  /\ world s' = clear_bed (world s))
     /\ (p <> IDLE -> state (driver s') = StartClearing /\ calls s' = calls s))
  /\ (state (driver s) = StartFinishing ->
     (p = IDLE -> state (driver s') = Finishing
                  /\ calls s' = calls s ++ [runner_run_finish_script]
                  /\ world s' = run_finish_script (world s))
     /\ (p <> IDLE -> state (driver s') = StartFinishing /\ calls s' = calls s)).
Proof.
  intros Ha. cbv zeta. split; intros Hst; open_sys s Hst;
    unfold action, call_state; unfold_handlers; unfold_monad;
    (split; [intros -> | intros Hp; destruct p; try contradiction]);
    destruct a; try contradiction; destruct path, materials; cbn;
    split_status; repeat split; reflexivity.
Qed.
End Idling.

(** One step on a goal [runner_budget 0 m]: no call on the runner. *)
Ltac quiet_step :=
  lazymatch goal with
  | |- runner_budget _ (mret _) => apply budget_ret
  | |- runner_budget _ (raise _) => apply budget_raise
  | |- runner_budget _ (read _) => apply budget_read
  | |- runner_budget _ (write _) => apply budget_write
  | |- runner_budget _ (_set_status _) => apply budget_set_status
  | |- runner_budget _ (ask _ _) => apply budget_ask_queue; reflexivity
  | |- runner_budget _ (tell _ _) => apply budget_tell_queue; reflexivity
  | |- runner_budget _ (if ?b then _ else _) => destruct b
  | |- runner_budget _ (match ?x with _ => _ end) => destruct x
  | |- runner_budget _ (_ ≫= _) => apply budget_bind_quiet; [|intros ?]
  end.

Section Scripts.
Context {W : Type} `{!Collaborators W}.
Implicit Types (a : Action) (p : Printer) (path : option string)
  (materials : list (option string)) (s : Sys W).

Lemma quiet_call_state st a p :
  p <> IDLE -> (st = SpaghettiRecovery -> p <> PAUSED) ->
  runner_budget 0 (call_state st a p).
Proof.
  intros Hp Hcancel.
  destruct p; [contradiction| |];
    destruct st; try (exfalso; now apply Hcancel);
    cbn [call_state]; unfold_handlers;
    unfold _enter_start_print, _state_start_print;
    cbn [Printer_eqb negb]; repeat quiet_step.
Qed.

(** X24. The runner is only put to work on an idle printer: in a call of
    [action] made with a printer status other than IDLE no call on the
    runner is made, whatever the state and the event, but for the
    [cancel_print] of [SpaghettiRecovery] on a paused printer. *)
Theorem runner_called_only_when_idle a p path materials s :
  p <> IDLE ->
  (state (driver s) = SpaghettiRecovery -> p <> PAUSED) ->
  runner_calls (calls (snd (action a p path materials s)))
  = runner_calls (calls s).
Proof.
  intros Hp Hcancel. rewrite action_unfold.
  destruct (quiet_call_state (state (driver s)) a p Hp Hcancel
              (noted path materials s)) as (cs & Hcs & Hlen).
  change (calls (noted path materials s)) with (calls s) in Hcs.
  assert (Hnone : runner_calls cs = []) by (destruct (runner_calls cs);
    [reflexivity | cbn in Hlen; lia]).
  destruct (call_state _ a p _) as [[nxt|e] s2]; cbn [snd] in *.
  - assert (Hc : calls (snd (conclude nxt s2)) = calls s2).
    { unfold conclude. destruct nxt; cbn; [reflexivity|].
      now destruct (_update_ui (driver s2)). }
    destruct (conclude nxt s2) as [b s3]. cbn [snd] in *.
    rewrite Hc, Hcs. unfold runner_calls in *.
    now rewrite List.filter_app, Hnone, app_nil_r.
  - rewrite Hcs. unfold runner_calls in *.
    now rewrite List.filter_app, Hnone, app_nil_r.
Qed.

Local Arguments _state_start_print : simpl never.

(** X25. The end of the queue. From [Printing], four polls of an idle
    printer with no event, the queue having nothing more to offer, go
    through [Success], [StartFinishing] and [Finishing] to [Inactive]; the
    run is closed with ["success"] before the queue is asked, and the finish
    script is run once, after both. *)
Theorem queue_runs_out s w1 :
  state (driver s) = Printing ->
  get_set_or_acquire (end_run "success" (world s)) = (None, w1) ->
  let inputs : list Input :=
    [ (TICK, IDLE, None, []); (TICK, IDLE, None, []);
      (TICK, IDLE, None, []); (TICK, IDLE, None, []) ] in
  states_after inputs s = [Success; StartFinishing; Finishing; Inactive]
  /\ calls (snd (actions inputs s))
     = calls s ++ [q_end_run "success"; q_get_set_or_acquire;
                   runner_run_finish_script]
  /\ world (snd (actions inputs s)) = run_finish_script w1.
Proof.
  intros Hst Hget inputs. subst inputs. open_sys s Hst.
  cbn [states_after actions].
  unfold action, call_state, _state_printing, _state_success,
    _state_start_finishing, _state_finishing.
  unfold_monad. cbn. rewrite !Hget. cbn.
  rewrite <- !app_assoc. repeat split; reflexivity.
Qed.

(** X26. One turn of the queue. From [Printing], SUCCESS for the path of
    the selected set and then three polls of an idle printer, with another
    set on offer whose materials are loaded and a runner that starts it,
    lead through [Success], [StartClearing] and [Clearing] back to
    [Printing] with the retry counter at [0]; the calls come in this order:
    the finished run is closed, the bed is cleared, and only then is the
    next run opened and its print started. *)
Theorem queue_turns s item w1 next w2 next' w3 w4 :
  state (driver s) = Printing ->
  get_set (world s) = (Some item, w1) ->
  get_set_or_acquire (end_run "success" w1) = (Some next, w2) ->
  get_set_or_acquire (clear_bed w2) = (Some next', w3) ->
  (forall (i : nat) (im : string),
      Set_.materials next' !! i = Some im ->
      _cur_materials (driver s) !! i = Some (Some im)) ->
  start_print next' (begin_run w3) = (true, w4) ->
  let inputs : list Input :=
    [ (SUCCESS, IDLE, Some (Set_.path item), []); (TICK, IDLE, None, []);
      (TICK, IDLE, None, []); (TICK, IDLE, None, []) ] in
  states_after inputs s = [Success; StartClearing; Clearing; Printing]
  /\ calls (snd (actions inputs s))
     = calls s ++ [q_get_set; q_end_run "success"; q_get_set_or_acquire;
                   runner_clear_bed; q_get_set_or_acquire; q_begin_run;
                   runner_start_print next']
  /\ world (snd (actions inputs s)) = w4
  /\ retries (driver (snd (actions inputs s))) = 0.
Proof.
  intros Hst Hitem Hnext Hnext' Hmat Hstart inputs.
  assert (Hmis : first_mismatch 0 (Some <$> Set_.materials next')
                   (_cur_materials (driver s)) = None).
  { apply first_mismatch_None. intros i im Hi.
    rewrite list_lookup_fmap in Hi.
    destruct (Set_.materials next' !! i) as [im'|] eqn:Him; [|discriminate].
    cbn in Hi. injection Hi as ->. now apply Hmat. }
  clear Hmat. subst inputs. open_sys s Hst.
  cbn [states_after actions].
  unfold action, call_state, _state_printing, _state_success,
    _state_start_clearing, _state_clearing, _enter_start_print.
  unfold_monad. cbn. rewrite !Hitem. cbn.
  rewrite !bool_decide_eq_true_2 by reflexivity. cbn.
  rewrite !Hnext. cbn.
  erewrite !state_start_print_starts;
    [| discriminate | exact Hnext' | exact Hmis | exact Hstart .. ].
  cbn. rewrite <- !app_assoc. repeat split; reflexivity.
Qed.
(** X27. The retry rule of [Failure]. With the printer not idle the
    driver waits, whatever the event. With the printer idle a further
    attempt is made, through [StartClearing] and with the counter raised
    by one, only while [retries + 1 < max_retries]; otherwise the run is
    closed with ["failure"] and the driver goes [Inactive]. So
    [max_retries] bounds the attempts, not the retries, and with
    [max_retries <= 1] a failed print is never tried again. *)
Theorem failure_retry_rule a p path materials s :
  state (driver s) = Failure ->
  let s' := snd (action a p path materials s) in
  (p <> IDLE -> state (driver s') = Failure /\ calls s' = calls s)
  /\ (p = IDLE -> retries (driver s) + 1 < max_retries (driver s) ->
      state (driver s') = StartClearing
      /\ retries (driver s') = retries (driver s) + 1
      /\ calls s' = calls s)
  /\ (p = IDLE -> max_retries (driver s) <= retries (driver s) + 1 ->
      state (driver s') = Inactive
      /\ calls s' = calls s ++ [q_end_run "failure"])
  /\ (p = IDLE -> max_retries (driver s) <= 1 -> 0 <= retries (driver s) ->
      state (driver s') = Inactive).
Proof.
  intros Hst. cbv zeta. split; [|split; [|split]].
  - intros Hp.
    destruct (failure_waits a p path materials s Hst Hp) as (H1 & H2 & _).
    split; assumption.
  - intros -> Hlt.
    destruct (proj1 (failure_idle a path materials s Hst) Hlt)
      as (H1 & H2 & H3 & _).
    repeat split; assumption.
  - intros -> Hge.
    destruct (proj2 (failure_idle a path materials s Hst) Hge)
      as (H1 & _ & H3 & _).
    split; assumption.
  - intros -> Hmax Hr.
    apply (proj2 (failure_idle a path materials s Hst)). lia.
Qed.

(** X28. Where DEACTIVATE is heard it only stops the driver: from every
    state but [Failure], [Success] and [SpaghettiRecovery] the call ends in
    [Inactive] and reaches neither the queue nor the runner, so a print
    under way is not cancelled and an open run is not closed. *)
Theorem deactivate_stops_without_calls p path materials s :
  state (driver s) <> Failure ->
  state (driver s) <> Success ->
  state (driver s) <> SpaghettiRecovery ->
  let s' := snd (action DEACTIVATE p path materials s) in
  state (driver s') = Inactive /\ calls s' = calls s /\ world s' = world s.
Proof.
  intros HF HS HR.
  destruct s as [[status0 st0 retries0 enabled0 max0 threshold0 first0 ui0
                  cur_path0 cur_materials0] w0 cs0].
  cbn [driver state calls world] in *.
  unfold action, call_state. unfold_handlers. unfold _state_start_print.
  unfold_monad.
  destruct st0; try contradiction;
    destruct p, path, materials; cbn; split_status; repeat split; reflexivity.
Qed.
End Scripts.

(** ** The further properties at concrete inputs *)

Lemma printing_transitions_witness :
  let s := driver_in Printing false 0 0 (offering set_plain 0) in
  state (driver (snd (action FAILURE BUSY None [] s))) = Failure
  /\ state (driver (snd (action SUCCESS IDLE (Some "plain.gcode") [] s)))
     = Success
  /\ state (driver (snd (action SUCCESS IDLE (Some "other.gcode") [] s)))
     = StartClearing.
Proof.
  cbv zeta.
  pose proof (printing_transitions FAILURE BUSY None []
                (driver_in Printing false 0 0 (offering set_plain 0)) eq_refl)
    as (_ & HF & _).
  pose proof (printing_transitions SUCCESS IDLE (Some "plain.gcode") []
                (driver_in Printing false 0 0 (offering set_plain 0)) eq_refl)
    as (_ & _ & HS & _).
  pose proof (printing_transitions SUCCESS IDLE (Some "other.gcode") []
                (driver_in Printing false 0 0 (offering set_plain 0)) eq_refl)
    as (_ & _ & HO & _).
  split; [exact (proj1 (HF eq_refl))|]. split.
  - exact (proj1 (HS eq_refl set_plain _ eq_refl) eq_refl).
  - apply (proj1 (proj2 (HO eq_refl set_plain _ eq_refl))). discriminate.
Defined.

Lemma success_step_witness :
  let s := driver_in Success true 3 3600 (nothing_selected 0) in
  state (driver (snd (action DEACTIVATE BUSY None [] s))) = StartFinishing.
Proof.
  cbv zeta.
  exact (proj1 (proj2 (success_step DEACTIVATE BUSY None []
                         (driver_in Success true 3 3600 (nothing_selected 0))
                         None (nothing_selected 0) eq_refl eq_refl))).
Defined.

Lemma start_print_waits_or_gives_up_witness :
  state (driver (snd (action TICK BUSY None []
                        (driver_in StartPrint false 0 0 (offering set_plain 0)))))
  = StartPrint
  /\ state (driver (snd (action TICK IDLE None []
                        (driver_in StartPrint false 0 0 (nothing_selected 0)))))
     = Inactive.
Proof.
  split.
  - refine (proj1 (proj1 (start_print_waits_or_gives_up TICK BUSY None []
                            (driver_in StartPrint false 0 0 (offering set_plain 0))
                            eq_refl _) _)); discriminate.
  - refine (proj1 (proj2 (start_print_waits_or_gives_up TICK IDLE None []
                            (driver_in StartPrint false 0 0 (nothing_selected 0))
                            eq_refl _) eq_refl _ eq_refl)).
    discriminate.
Defined.

Lemma start_print_refused_keeps_run_open_witness :
  let s := driver_in StartPrint false 0 0 (refusing set_plain 0) in
  state (driver (snd (action TICK IDLE None [] s))) = StartPrint
  /\ calls (snd (action TICK IDLE None [] s))
     = [q_get_set_or_acquire; q_begin_run; runner_start_print set_plain].
Proof.
  cbv zeta.
  pose proof (start_print_refused_keeps_run_open TICK None []
                (driver_in StartPrint false 0 0 (refusing set_plain 0))
                set_plain (refusing set_plain 0)
                (Scripted.with_open_run
                   (Some (Scripted.new_run (refusing set_plain 0)))
                   (refusing set_plain 0))) as H.
  destruct H as (H1 & H2 & _).
  - reflexivity.
  - discriminate.
  - reflexivity.
  - intros i im Hi. vm_compute in Hi. destruct i; discriminate.
  - reflexivity.
  - split; assumption.
Defined.

Lemma start_print_waits_for_first_wrong_spool_witness :
  let s := driver_in StartPrint false 0 0 (offering set_red 0) in
  status (driver (snd (action TICK IDLE None [Some "PLA-Black"] s)))
  = Some "Waiting for spool PLA-Red in tool 0 (currently: PLA-Black)".
Proof.
  cbv zeta.
  pose proof (start_print_waits_for_first_wrong_spool TICK None
                [Some "PLA-Black"]
                (driver_in StartPrint false 0 0 (offering set_red 0))
                set_red (offering set_red 0) 0 "PLA-Red") as H.
  destruct H as (_ & H & _).
  - reflexivity.
  - discriminate.
  - reflexivity.
  - reflexivity.
  - discriminate.
  - intros n x Hn. lia.
  - exact H.
Defined.

Lemma unknown_hears_only_deactivate_witness :
  let inputs : list Input :=
    [ (ACTIVATE, IDLE, None, []); (SUCCESS, IDLE, Some "a.gcode", []);
      (TICK, BUSY, None, [Some "PLA-Red"]) ] in
  state (driver (snd (actions inputs (Scripted.fresh (offering set_plain 0)))))
  = Unknown
  /\ calls (snd (actions inputs (Scripted.fresh (offering set_plain 0)))) = [].
Proof.
  cbv zeta.
  pose proof (unknown_hears_only_deactivate
                [ (ACTIVATE, IDLE, None, []); (SUCCESS, IDLE, Some "a.gcode", []);
                  (TICK, BUSY, None, [Some "PLA-Red"]) ]
                (Scripted.fresh (offering set_plain 0)) eq_refl) as H.
  destruct H as (_ & H1 & _ & H2 & _).
  - repeat constructor; discriminate.
  - split; assumption.
Defined.

Lemma inactive_step_witness :
  let s := driver_in Inactive true 3 3600 (offering set_plain 0) in
  state (driver (snd (action ACTIVATE BUSY None [] s))) = Printing
  /\ calls (snd (action ACTIVATE BUSY None [] s)) = [].
Proof.
  cbv zeta.
  pose proof (inactive_step ACTIVATE BUSY None []
                (driver_in Inactive true 3 3600 (offering set_plain 0)) eq_refl)
    as (_ & _ & H).
  destruct (H eq_refl ltac:(discriminate)) as (H1 & H2 & _).
  split; assumption.
Defined.

Lemma clearing_step_witness :
  state (driver (snd (action FAILURE IDLE None []
                        (driver_in Clearing true 3 3600 (offering set_plain 0)))))
  = Inactive.
Proof.
  exact (proj1 (proj1 (clearing_step FAILURE IDLE None []
                         (driver_in Clearing true 3 3600 (offering set_plain 0))
                         eq_refl) eq_refl)).
Defined.

Lemma scripts_start_when_idle_witness :
  calls (snd (action TICK IDLE None []
                (driver_in StartClearing true 3 3600 (offering set_plain 0))))
  = [runner_clear_bed]
  /\ calls (snd (action TICK BUSY None []
                (driver_in StartFinishing true 3 3600 (offering set_plain 0))))
     = [].
Proof.
  split.
  - refine (proj1 (proj2 (proj1 (proj1 (scripts_start_when_idle TICK IDLE None []
              (driver_in StartClearing true 3 3600 (offering set_plain 0)) _)
              eq_refl) eq_refl))).
    discriminate.
  - refine (proj2 (proj2 (proj2 (scripts_start_when_idle TICK BUSY None []
              (driver_in StartFinishing true 3 3600 (offering set_plain 0)) _)
              eq_refl) _)); discriminate.
Defined.

Lemma runner_called_only_when_idle_witness :
  runner_calls
    (calls (snd (action TICK BUSY None []
                   (driver_in StartClearing true 3 3600 (offering set_plain 0)))))
  = [].
Proof.
  refine (runner_called_only_when_idle TICK BUSY None []
            (driver_in StartClearing true 3 3600 (offering set_plain 0)) _ _);
    discriminate.
Defined.

Lemma queue_runs_out_witness :
  states_after
    [ (TICK, IDLE, None, []); (TICK, IDLE, None, []);
      (TICK, IDLE, None, []); (TICK, IDLE, None, []) ]
    (driver_in Printing false 0 0 (nothing_selected 0))
  = [Success; StartFinishing; Finishing; Inactive].
Proof.
  exact (proj1 (queue_runs_out
                  (driver_in Printing false 0 0 (nothing_selected 0))
                  (nothing_selected 0) eq_refl eq_refl)).
Defined.

Lemma queue_turns_witness :
  states_after
    [ (SUCCESS, IDLE, Some "plain.gcode", []); (TICK, IDLE, None, []);
      (TICK, IDLE, None, []); (TICK, IDLE, None, []) ]
    (driver_in Printing false 0 0 (offering set_plain 0))
  = [Success; StartClearing; Clearing; Printing].
Proof.
  refine (proj1 (queue_turns
                   (driver_in Printing false 0 0 (offering set_plain 0))
                   set_plain (offering set_plain 0)
                   set_plain (offering set_plain 0)
                   set_plain (offering set_plain 0)
                   (Scripted.with_open_run
                      (Some (Scripted.new_run (offering set_plain 0)))
                      (offering set_plain 0))
                   eq_refl eq_refl eq_refl eq_refl _ eq_refl)).
  intros i im Hi. vm_compute in Hi. destruct i; discriminate.
Defined.

Lemma failure_retry_rule_witness :
  let s := driver_in Failure true 3 3600 (offering set_plain 0) in
  state (driver (snd (action TICK IDLE None [] s))) = StartClearing
  /\ retries (driver (snd (action TICK IDLE None [] s))) = 1.
Proof.
  cbv zeta.
  destruct (failure_retry_rule TICK IDLE None []
              (driver_in Failure true 3 3600 (offering set_plain 0)) eq_refl)
    as (_ & H & _).
  destruct (H eq_refl) as (H1 & H2 & _); [cbn; lia|].
  split; assumption.
Defined.

Lemma deactivate_stops_without_calls_witness :
  let s := driver_in Printing true 3 3600 (printing_since 1000 1010) in
  state (driver (snd (action DEACTIVATE BUSY None [] s))) = Inactive
  /\ calls (snd (action DEACTIVATE BUSY None [] s)) = [].
Proof.
  cbv zeta.
  destruct (deactivate_stops_without_calls BUSY None []
              (driver_in Printing true 3 3600 (printing_since 1000 1010)))
    as (H1 & H2 & _); try discriminate.
  split; assumption.
Defined.
